(** * ImageEditor: the image transformation pipeline

    A shallow embedding of [src/components/ImageEditor.js]: the crop
    rasterizer [getCroppedImg], the data-URI splitting done inline by
    [getCroppedImg] and [handleUpscale], and the event handlers of the
    [ImageEditor] component ([handleFileChange], [handleClearCrop],
    [handleEdit], [handleUpscale]) together with the React state they
    drive.

    JavaScript strings are sequences of UTF-16 code units, JavaScript
    numbers are IEEE-754 binary64 values (Rocq's primitive floats), and an
    [async] handler is a finite tree of state setters, DOM calls and
    [await]s. *)

From Stdlib Require Import List NArith Bool String Ascii Floats Lia.
Import ListNotations.

Set Implicit Arguments.

(** ** JavaScript strings *)

Module Js.

(** A code unit is a number below 65536; a string is a list of them. *)
Definition char := N.
Definition str := list char.

(** Bytes of a Rocq literal, to be read as UTF-8. *)
Definition bytes_of (s : string) : list N :=
  List.map N_of_ascii (list_ascii_of_string s).

(** UTF-8 to UTF-16: one code unit for a sequence of one to three bytes,
    a surrogate pair for a sequence of four. *)
Fixpoint utf16_of_utf8 (bs : list N) : str :=
  match bs with
  | [] => []
  | b0 :: r0 =>
    if (b0 <? 128)%N then b0 :: utf16_of_utf8 r0
    else match r0 with
    | [] => [b0]
    | b1 :: r1 =>
      if (b0 <? 224)%N
      then ((b0 - 192) * 64 + (b1 - 128))%N :: utf16_of_utf8 r1
      else match r1 with
      | [] => [b0; b1]
      | b2 :: r2 =>
        if (b0 <? 240)%N
        then ((b0 - 224) * 4096 + (b1 - 128) * 64 + (b2 - 128))%N
               :: utf16_of_utf8 r2
        else match r2 with
        | [] => [b0; b1; b2]
        | b3 :: r3 =>
          let cp := ((b0 - 240) * 262144 + (b1 - 128) * 4096
                     + (b2 - 128) * 64 + (b3 - 128))%N in
          let v := (cp - 65536)%N in
          (55296 + v / 1024)%N :: (56320 + v mod 1024)%N
            :: utf16_of_utf8 r3
        end
      end
    end
  end.

(** A string literal of the source. *)
Definition lit (s : string) : str := utf16_of_utf8 (bytes_of s).

Definition comma : char := 44%N.
Definition colon : char := 58%N.
Definition semicolon : char := 59%N.

(** [!s] for a string [s]: only the empty string is falsy. *)
Definition is_empty (s : str) : bool :=
  match s with [] => true | _ :: _ => false end.

(** The line terminators, which [.] in a regular expression refuses:
    LF, CR, LS and PS. *)
Definition is_line_terminator (c : char) : bool :=
  ((c =? 10) || (c =? 13) || (c =? 8232) || (c =? 8233))%N.

(** [s.split(sep)] for a separator of one code unit.  The result is never
    empty: [''.split(',')] is [['']]. *)
Fixpoint split (sep : char) (s : str) : list str :=
  match s with
  | [] => [[]]
  | c :: s' =>
    if (c =? sep)%N then [] :: split sep s'
    else match split sep s' with
         | h :: t => (c :: h) :: t
         | [] => [[c]]
         end
  end.

(** The rest of [/:(.*?);/] once the colon is consumed: the shortest run
    of non-terminators up to a semicolon; the run is the capture. *)
Fixpoint lazy_until_semicolon (s : str) : option str :=
  match s with
  | [] => None
  | c :: s' =>
    if (c =? semicolon)%N then Some []
    else if is_line_terminator c then None
    else option_map (cons c) (lazy_until_semicolon s')
  end.

(** [s.match(/:(.*?);/)], reduced to its first capture group: the
    leftmost start position that matches wins. *)
Fixpoint match_type (s : str) : option str :=
  match s with
  | [] => None
  | c :: s' =>
    if (c =? colon)%N then
      match lazy_until_semicolon s' with
      | Some t => Some t
      | None => match_type s'
      end
    else match_type s'
  end.

End Js.

Definition image_png : Js.str := Js.lit "image/png".

(** ** Data model *)

Record EncodedImage := { base64 : Js.str; mimeType : Js.str }.

(** The shared data-URI splitting of [getCroppedImg] (lines 35-41) and
    [handleUpscale] (lines 133-136):
    [const [header, data] = uri.split(','); if (!header || !data) fail;
     mimeType = match ? match[1] : 'image/png'].  [None] is the failure. *)
Definition decode (uri : Js.str) : option EncodedImage :=
  let parts := Js.split Js.comma uri in
  match nth_error parts 0, nth_error parts 1 with
  | Some header, Some data =>
    if Js.is_empty header || Js.is_empty data then None
    else Some {| base64 := data;
                 mimeType := match Js.match_type header with
                             | Some t => t
                             | None => image_png
                             end |}
  | _, _ => None
  end.

(** A [File] picked by the user.  Its bytes are read by [fileToBase64]
    only, which lives outside this component. *)
Record File := { file_name : Js.str; file_type : Js.str }.

(** [{ file, previewUrl }], the value of [originalImage]. *)
Record SourceImage := { file : File; previewUrl : Js.str }.

Module Img.
(** The fields of the displayed [<img>] element that the code reads. *)
Record t := { naturalWidth : float; naturalHeight : float;
              width : float; height : float }.
End Img.

Module Crop.
(** A crop rectangle of [react-image-crop], in displayed coordinates. *)
Record t := { x : float; y : float; width : float; height : float }.
End Crop.

(** What a [catch] clause receives: an object, whose [message] may be
    missing.  A rejection with [null] or [undefined], on which reading
    [err.message] itself throws inside the [catch], has no value here. *)
Record JsError := { message : option Js.str }.

Definition Error (m : Js.str) : JsError := {| message := Some m |}.

(** [err.message || fallback] *)
Definition message_or (err : JsError) (fallback : Js.str) : Js.str :=
  match message err with
  | Some (c :: m) => c :: m
  | _ => fallback
  end.

(** The [useState] and [useRef] cells of the component, lines 47-59. *)
Record State := {
  prompt : Js.str;
  originalImage : option SourceImage;
  editedImage : option Js.str;
  isLoading : bool;
  error : option Js.str;
  upscaledImage : option Js.str;
  isUpscaling : bool;
  upscaleError : option Js.str;
  imgRef : option Img.t;
  crop : option Crop.t;
  completedCrop : option Crop.t
}.

Definition initial : State :=
  {| prompt := []; originalImage := None; editedImage := None;
     isLoading := false; error := None; upscaledImage := None;
     isUpscaling := false; upscaleError := None; imgRef := None;
     crop := None; completedCrop := None |}.

(** One constructor per state setter; [AttachRef] is React writing
    [imgRef.current]. *)
Inductive Setter :=
| SetPrompt (v : Js.str)
| SetOriginalImage (v : option SourceImage)
| SetEditedImage (v : option Js.str)
| SetIsLoading (v : bool)
| SetError (v : option Js.str)
| SetUpscaledImage (v : option Js.str)
| SetIsUpscaling (v : bool)
| SetUpscaleError (v : option Js.str)
| SetCrop (v : option Crop.t)
| SetCompletedCrop (v : option Crop.t)
| AttachRef (v : option Img.t).

Definition apply_setter (u : Setter) (s : State) : State :=
  match u with
  | SetPrompt v =>
    {| prompt := v; originalImage := originalImage s;
       editedImage := editedImage s; isLoading := isLoading s;
       error := error s; upscaledImage := upscaledImage s;
       isUpscaling := isUpscaling s; upscaleError := upscaleError s;
       imgRef := imgRef s; crop := crop s;
       completedCrop := completedCrop s |}
  | SetOriginalImage v =>
    {| prompt := prompt s; originalImage := v;
       editedImage := editedImage s; isLoading := isLoading s;
       error := error s; upscaledImage := upscaledImage s;
       isUpscaling := isUpscaling s; upscaleError := upscaleError s;
       imgRef := imgRef s; crop := crop s;
       completedCrop := completedCrop s |}
  | SetEditedImage v =>
    {| prompt := prompt s; originalImage := originalImage s;
       editedImage := v; isLoading := isLoading s;
       error := error s; upscaledImage := upscaledImage s;
       isUpscaling := isUpscaling s; upscaleError := upscaleError s;
       imgRef := imgRef s; crop := crop s;
       completedCrop := completedCrop s |}
  | SetIsLoading v =>
    {| prompt := prompt s; originalImage := originalImage s;
       editedImage := editedImage s; isLoading := v;
       error := error s; upscaledImage := upscaledImage s;
       isUpscaling := isUpscaling s; upscaleError := upscaleError s;
       imgRef := imgRef s; crop := crop s;
       completedCrop := completedCrop s |}
  | SetError v =>
    {| prompt := prompt s; originalImage := originalImage s;
       editedImage := editedImage s; isLoading := isLoading s;
       error := v; upscaledImage := upscaledImage s;
       isUpscaling := isUpscaling s; upscaleError := upscaleError s;
       imgRef := imgRef s; crop := crop s;
       completedCrop := completedCrop s |}
  | SetUpscaledImage v =>
    {| prompt := prompt s; originalImage := originalImage s;
       editedImage := editedImage s; isLoading := isLoading s;
       error := error s; upscaledImage := v;
       isUpscaling := isUpscaling s; upscaleError := upscaleError s;
       imgRef := imgRef s; crop := crop s;
       completedCrop := completedCrop s |}
  | SetIsUpscaling v =>
    {| prompt := prompt s; originalImage := originalImage s;
       editedImage := editedImage s; isLoading := isLoading s;
       error := error s; upscaledImage := upscaledImage s;
       isUpscaling := v; upscaleError := upscaleError s;
       imgRef := imgRef s; crop := crop s;
       completedCrop := completedCrop s |}
  | SetUpscaleError v =>
    {| prompt := prompt s; originalImage := originalImage s;
       editedImage := editedImage s; isLoading := isLoading s;
       error := error s; upscaledImage := upscaledImage s;
       isUpscaling := isUpscaling s; upscaleError := v;
       imgRef := imgRef s; crop := crop s;
       completedCrop := completedCrop s |}
  | SetCrop v =>
    {| prompt := prompt s; originalImage := originalImage s;
       editedImage := editedImage s; isLoading := isLoading s;
       error := error s; upscaledImage := upscaledImage s;
       isUpscaling := isUpscaling s; upscaleError := upscaleError s;
       imgRef := imgRef s; crop := v;
       completedCrop := completedCrop s |}
  | SetCompletedCrop v =>
    {| prompt := prompt s; originalImage := originalImage s;
       editedImage := editedImage s; isLoading := isLoading s;
       error := error s; upscaledImage := upscaledImage s;
       isUpscaling := isUpscaling s; upscaleError := upscaleError s;
       imgRef := imgRef s; crop := crop s;
       completedCrop := v |}
  | AttachRef v =>
    {| prompt := prompt s; originalImage := originalImage s;
       editedImage := editedImage s; isLoading := isLoading s;
       error := error s; upscaledImage := upscaledImage s;
       isUpscaling := isUpscaling s; upscaleError := upscaleError s;
       imgRef := v; crop := crop s;
       completedCrop := completedCrop s |}
  end.

(** ** Asynchronous programs *)

(** The DOM operations the component performs.  They are synchronous; the
    browser answers those that return something. *)
Inductive DomCall :=
| CreateObjectURL (f : File)
| CreateCanvas
| SetCanvasWidth (w : float)
| SetCanvasHeight (h : float)
| GetContext2d
| SetImageSmoothingQuality (q : Js.str)
| DrawImage (image : Img.t) (sx sy sw sh dx dy dw dh : float)
| ToDataURL (type : Js.str).

Definition dom_reply (c : DomCall) : Type :=
  match c with
  | CreateObjectURL _ => Js.str
  | GetContext2d => bool
  | ToDataURL _ => Js.str
  | _ => unit
  end.

(** The promise-returning functions imported from the rest of the
    repository: [fileToBase64], [editImage] and [upscaleImage]. *)
Inductive Remote :=
| FileToBase64 (f : File)
| EditImage (imageBase64 mime instruction : Js.str)
| UpscaleImage (imageBase64 mime : Js.str).

Definition reply (c : Remote) : Type :=
  match c with
  | FileToBase64 _ => EncodedImage
  | EditImage _ _ _ => Js.str
  | UpscaleImage _ _ => Js.str
  end.

(** How a promise settles. *)
Inductive Settled (A : Type) :=
| Resolved (a : A)
| Rejected (e : JsError).
Arguments Rejected {A} e.

(** The body of an [async] function: it returns or throws, calls a state
    setter, calls the DOM, or suspends at an [await], either on a promise
    of its own making ([Tick]) or on one of the imported functions
    ([Await]). *)
Inductive Async (A : Type) : Type :=
| Ret (a : A)
| Throw (e : JsError)
| Set_ (u : Setter) (k : Async A)
| Dom (c : DomCall) (k : dom_reply c -> Async A)
| Tick (k : Async A)
| Await (c : Remote) (k : Settled (reply c) -> Async A).
Arguments Throw {A} e.
Arguments Set_ {A} u k.
Arguments Dom {A} c k.
Arguments Tick {A} k.
Arguments Await {A} c k.

Fixpoint bind {A B} (p : Async A) (f : A -> Async B) : Async B :=
  match p with
  | Ret a => f a
  | Throw e => Throw e
  | Set_ u k => Set_ u (bind k f)
  | Dom c k => Dom c (fun r => bind (k r) f)
  | Tick k => Tick (bind k f)
  | Await c k => Await c (fun r => bind (k r) f)
  end.

Declare Scope async_scope.
Delimit Scope async_scope with async.
Bind Scope async_scope with Async.
Notation "x <- p ;; k" := (bind p (fun x => k))
  (at level 61, p at next level, right associativity) : async_scope.
Notation "p ;; k" := (bind p (fun _ => k))
  (at level 61, right associativity) : async_scope.
Open Scope async_scope.

Definition update (u : Setter) : Async unit := Set_ u (Ret tt).
Definition dom (c : DomCall) : Async (dom_reply c) := Dom c (fun r => Ret r).

(** [await f(...)] for an imported [f]: a rejection is thrown. *)
Definition await (c : Remote) : Async (reply c) :=
  Await c (fun r => match r with
                    | Resolved v => Ret v
                    | Rejected e => Throw e
                    end).

(** [await p] where [p] is the call of an [async] function of this file:
    the callee runs to its end first, the caller resumes one tick later. *)
Fixpoint await_local {A} (p : Async A) : Async A :=
  match p with
  | Ret a => Tick (Ret a)
  | Throw e => Tick (Throw e)
  | Set_ u k => Set_ u (await_local k)
  | Dom c k => Dom c (fun r => await_local (k r))
  | Tick k => Tick (await_local k)
  | Await c k => Await c (fun r => await_local (k r))
  end.

(** [try { p } catch (err) { h err }] *)
Fixpoint try_catch {A} (p : Async A) (h : JsError -> Async A) : Async A :=
  match p with
  | Ret a => Ret a
  | Throw e => h e
  | Set_ u k => Set_ u (try_catch k h)
  | Dom c k => Dom c (fun r => try_catch (k r) h)
  | Tick k => Tick (try_catch k h)
  | Await c k => Await c (fun r => try_catch (k r) h)
  end.

(** [try { p } finally { f }] *)
Fixpoint finally {A} (p : Async A) (f : Async unit) : Async A :=
  match p with
  | Ret a => f ;; Ret a
  | Throw e => f ;; Throw e
  | Set_ u k => Set_ u (finally k f)
  | Dom c k => Dom c (fun r => finally (k r) f)
  | Tick k => Tick (finally k f)
  | Await c k => Await c (fun r => finally (k r) f)
  end.

Definition try_catch_finally {A} (p : Async A) (h : JsError -> Async A)
    (f : Async unit) : Async A :=
  finally (try_catch p h) f.

(** ** The rasterizer *)

Definition high : Js.str := Js.lit "high".

(** [getCroppedImg(image, crop)], lines 9-44. *)
Definition getCroppedImg (image : Img.t) (crop : Crop.t)
    : Async EncodedImage :=
  dom CreateCanvas ;;
  dom (SetCanvasWidth (Crop.width crop)) ;;
  dom (SetCanvasHeight (Crop.height crop)) ;;
  ctx <- dom GetContext2d ;;
  if negb ctx then Throw (Error (Js.lit "No 2d context"))
  else
    let scaleX := (Img.naturalWidth image / Img.width image)%float in
    let scaleY := (Img.naturalHeight image / Img.height image)%float in
    dom (SetImageSmoothingQuality high) ;;
    dom (DrawImage image
           (Crop.x crop * scaleX)%float
           (Crop.y crop * scaleY)%float
           (Crop.width crop * scaleX)%float
           (Crop.height crop * scaleY)%float
           0%float
           0%float
           (Crop.width crop)
           (Crop.height crop)) ;;
    base64Image <- dom (ToDataURL image_png) ;;
    match decode base64Image with
    | None => Throw (Error (Js.lit "Could not convert canvas to base64."))
    | Some img => Ret img
    end.

(** ** The handlers of the component *)

Definition msg_upload_first : Js.str :=
  Js.lit "لطفا ابتدا یک تصویر آپلود کنید.".
Definition msg_enter_prompt : Js.str :=
  Js.lit "لطفا دستور ویرایش را وارد کنید.".
Definition msg_unexpected : Js.str :=
  Js.lit "خطایی غیرمنتظره رخ داد.".
Definition msg_nothing_to_upscale : Js.str :=
  Js.lit "تصویر ویرایش شده‌ای برای افزایش کیفیت وجود ندارد.".
Definition msg_invalid_format : Js.str :=
  Js.lit "فرمت تصویر ویرایش شده نامعتبر است.".
Definition msg_unexpected_upscale : Js.str :=
  Js.lit "خطایی غیرمنتظره در هنگام افزایش کیفیت رخ داد.".

(** The template literal of lines 104 and 139. *)
Definition png_data_url (bytes : Js.str) : Js.str :=
  Js.lit "data:image/png;base64," ++ bytes.

(** [handleFileChange], lines 61-72; [file] is
    [event.target.files && event.target.files[0]]. *)
Definition handleFileChange (file : option File) : Async unit :=
  match file with
  | Some f =>
    url <- dom (CreateObjectURL f) ;;
    update (SetOriginalImage (Some {| file := f; previewUrl := url |})) ;;
    update (SetEditedImage None) ;;
    update (SetError None) ;;
    update (SetUpscaledImage None) ;;
    update (SetUpscaleError None) ;;
    update (SetCrop None) ;;
    update (SetCompletedCrop None)
  | None => Ret tt
  end.

(** [handleClearCrop], lines 74-77. *)
Definition handleClearCrop : Async unit :=
  update (SetCrop None) ;;
  update (SetCompletedCrop None).

(** The input of the edit, lines 97-101: the rasterized crop when
    [completedCrop && completedCrop.width > 0 && completedCrop.height > 0
     && imgRef.current], the raw file otherwise. *)
Definition imageToEdit (s : State) (original : SourceImage)
    : Async EncodedImage :=
  match completedCrop s, imgRef s with
  | Some c, Some img =>
    if (0 <? Crop.width c)%float && (0 <? Crop.height c)%float
    then await_local (getCroppedImg img c)
    else await (FileToBase64 (file original))
  | _, _ => await (FileToBase64 (file original))
  end.

(** [handleEdit], lines 79-110, as the closure over the state [s] of the
    render it was created in. *)
Definition handleEdit (s : State) : Async unit :=
  match originalImage s with
  | None => update (SetError (Some msg_upload_first))
  | Some original =>
    if Js.is_empty (prompt s)
    then update (SetError (Some msg_enter_prompt))
    else
      update (SetIsLoading true) ;;
      update (SetError None) ;;
      update (SetEditedImage None) ;;
      update (SetUpscaledImage None) ;;
      update (SetUpscaleError None) ;;
      try_catch_finally
        (image <- imageToEdit s original ;;
         editedImageBytes <-
           await (EditImage (base64 image) (mimeType image) (prompt s)) ;;
         update (SetEditedImage (Some (png_data_url editedImageBytes))))
        (fun err => update (SetError (Some (message_or err msg_unexpected))))
        (update (SetIsLoading false))
  end.

(** [!editedImage]: [null] and the empty string are falsy. *)
Definition present (v : option Js.str) : option Js.str :=
  match v with
  | Some (c :: r) => Some (c :: r)
  | _ => None
  end.

(** [handleUpscale], lines 123-145, as the closure over the state [s]. *)
Definition handleUpscale (s : State) : Async unit :=
  match present (editedImage s) with
  | None => update (SetUpscaleError (Some msg_nothing_to_upscale))
  | Some edited =>
    update (SetIsUpscaling true) ;;
    update (SetUpscaleError None) ;;
    update (SetUpscaledImage None) ;;
    try_catch_finally
      (match decode edited with
       | None => Throw (Error msg_invalid_format)
       | Some img =>
         upscaledImageBytes <-
           await (UpscaleImage (base64 img) (mimeType img)) ;;
         update (SetUpscaledImage (Some (png_data_url upscaledImageBytes)))
       end)
      (fun err =>
         update (SetUpscaleError
                   (Some (message_or err msg_unexpected_upscale))))
      (update (SetIsUpscaling false))
  end.

(** What the user and React can do to the component: the four handlers,
    typing in the textarea (line 257), the two callbacks of [ReactCrop]
    (line 236) and React attaching or detaching the [<img>] of line 237. *)
Inductive Action :=
| FileChange (file : option File)
| ClearCrop
| Edit
| Upscale
| PromptChange (value : Js.str)
| CropChange (percentCrop : Crop.t)
| CropComplete (c : Crop.t)
| RefChange (img : option Img.t).

Definition handler (a : Action) (s : State) : Async unit :=
  match a with
  | FileChange f => handleFileChange f
  | ClearCrop => handleClearCrop
  | Edit => handleEdit s
  | Upscale => handleUpscale s
  | PromptChange v => update (SetPrompt v)
  | CropChange c => update (SetCrop (Some c))
  | CropComplete c => update (SetCompletedCrop (Some c))
  | RefChange img => update (AttachRef img)
  end.

(** ** Running a handler *)

(** The browser's answers to the DOM calls that return something. *)
Record Browser := {
  objectURL : File -> Js.str;
  context2d : bool;
  dataURL : Js.str
}.

Definition answer (b : Browser) (c : DomCall) : dom_reply c :=
  match c return dom_reply c with
  | CreateObjectURL f => objectURL b f
  | GetContext2d => context2d b
  | ToDataURL _ => dataURL b
  | CreateCanvas => tt
  | SetCanvasWidth _ => tt
  | SetCanvasHeight _ => tt
  | SetImageSmoothingQuality _ => tt
  | DrawImage _ _ _ _ _ _ _ _ _ => tt
  end.

(** What a handler did to the outside world. *)
Inductive Event :=
| DomEvent (c : DomCall)
| RemoteEvent (c : Remote).

(** A suspended program: ready to go on at the next tick, or waiting for
    an imported function to settle. *)
Inductive Pending (A : Type) :=
| Ready (k : Async A)
| Waiting (c : Remote) (k : Settled (reply c) -> Async A).

(** How a synchronous stretch of a program ends. *)
Inductive Outcome (A : Type) :=
| Returned (a : A)
| Thrown (e : JsError)
| Paused (p : Pending A).
Arguments Thrown {A} e.

(** One synchronous stretch of a program, from the state [s] up to its
    end or its next [await]: the state reached, the calls made, and how
    the stretch ended. *)
Fixpoint run {A} (b : Browser) (p : Async A) (s : State)
    : State * list Event * Outcome A :=
  match p with
  | Ret a => (s, [], Returned a)
  | Throw e => (s, [], Thrown e)
  | Set_ u k => run b k (apply_setter u s)
  | Dom c k =>
    let '(s', ev, o) := run b (k (answer b c)) s in
    (s', DomEvent c :: ev, o)
  | Tick k => (s, [], Paused (Ready k))
  | Await c k => (s, [RemoteEvent c], Paused (Waiting c k))
  end.

(** ** The component as a transition system *)

(** The state cells, the handlers in flight and every call made so far. *)
Record Sys := {
  ui : State;
  inflight : list (Pending unit);
  log : list Event
}.

Definition start : Sys := {| ui := initial; inflight := []; log := [] |}.

(** How the world lets a suspended handler go on. *)
Inductive Reply :=
| Continue
| FileRead (r : Settled EncodedImage)
| Bytes (r : Settled Js.str).

Definition resume (p : Pending unit) (r : Reply) : option (Async unit) :=
  match p with
  | Ready k => match r with Continue => Some k | _ => None end
  | Waiting c k =>
    match c return (Settled (reply c) -> Async unit) -> option (Async unit)
    with
    | FileToBase64 _ => fun k =>
      match r with FileRead x => Some (k x) | _ => None end
    | EditImage _ _ _ => fun k =>
      match r with Bytes x => Some (k x) | _ => None end
    | UpscaleImage _ _ => fun k =>
      match r with Bytes x => Some (k x) | _ => None end
    end k
  end.

Definition remove_nth {A} (n : nat) (l : list A) : list A :=
  firstn n l ++ skipn (S n) l.

(** Runs [p] on the current state and files what is left of it. *)
Definition dispatch (b : Browser) (p : Async unit) (sys : Sys) : Sys :=
  let '(s', ev, o) := run b p (ui sys) in
  {| ui := s';
     inflight := match o with
                 | Paused q => inflight sys ++ [q]
                 | _ => inflight sys
                 end;
     log := log sys ++ ev |}.

Inductive Label :=
| Act (a : Action) (b : Browser)
| Resume (n : nat) (r : Reply) (b : Browser).

(** A handler is invoked on the state of the current render, or the
    [n]-th handler in flight goes on.  The [disabled] attributes and the
    conditional rendering of the buttons (lines 199, 204, 232, 260, 269)
    belong to the markup and are not part of the handlers: here any
    handler may be invoked in any state.  A handler that is [Ready] goes
    on before any other event in the browser; here it may go on at any
    later time, which only adds behaviours. *)
Definition step (sys : Sys) (l : Label) : option Sys :=
  match l with
  | Act a b => Some (dispatch b (handler a (ui sys)) sys)
  | Resume n r b =>
    match nth_error (inflight sys) n with
    | Some p =>
      match resume p r with
      | Some k =>
        Some (dispatch b k {| ui := ui sys;
                              inflight := remove_nth n (inflight sys);
                              log := log sys |})
      | None => None
      end
    | None => None
    end
  end.

Fixpoint exec (sys : Sys) (ls : list Label) : option Sys :=
  match ls with
  | [] => Some sys
  | l :: ls' =>
    match step sys l with
    | Some sys' => exec sys' ls'
    | None => None
    end
  end.

Inductive reachable : Sys -> Prop :=
| reachable_start : reachable start
| reachable_step sys l sys' :
    reachable sys -> step sys l = Some sys' -> reachable sys'.


(** The state after the first stretch of [p], the calls it made, and how
    it ended. *)
Definition after {A} (b : Browser) (p : Async A) (s : State) : State :=
  fst (fst (run b p s)).
Definition calls {A} (b : Browser) (p : Async A) (s : State) : list Event :=
  snd (fst (run b p s)).
Definition outcome {A} (b : Browser) (p : Async A) (s : State) : Outcome A :=
  snd (run b p s).

(** ** A logic of synchronous stretches *)

Section Stretches.

(** [R s0 s] relates the state a stretch starts in to the state it ends
    in. *)
Variable R : State -> State -> Prop.

(** [stretch p s0 s]: the stretch of [p] that started in [s0] and has
    reached [s] ends in a state related to [s0], and so does every
    later stretch of [p], whatever the answers it gets and whatever
    state it resumes in. *)
Fixpoint stretch {A} (p : Async A) (s0 s : State) : Prop :=
  match p with
  | Ret _ => R s0 s
  | Throw _ => R s0 s
  | Set_ u k => stretch k s0 (apply_setter u s)
  | Dom c k => forall r, stretch (k r) s0 s
  | Tick k => R s0 s /\ forall s1, stretch k s1 s1
  | Await c k => R s0 s /\ forall r s1, stretch (k r) s1 s1
  end.

(** [G e] holds of the events a program may cause. *)
Variable G : Event -> Prop.

(** [only p]: every call [p] makes, on every path, is in [G]. *)
Fixpoint only {A} (p : Async A) : Prop :=
  match p with
  | Ret _ => True
  | Throw _ => True
  | Set_ u k => only k
  | Dom c k => G (DomEvent c) /\ forall r, only (k r)
  | Tick k => only k
  | Await c k => G (RemoteEvent c) /\ forall r, only (k r)
  end.

Definition pending_ok {A} (q : Pending A) : Prop :=
  match q with
  | Ready k => (forall s1, stretch k s1 s1) /\ only k
  | Waiting c k => forall r, (forall s1, stretch (k r) s1 s1) /\ only (k r)
  end.

Definition outcome_ok {A} (o : Outcome A) : Prop :=
  match o with
  | Paused q => pending_ok q
  | _ => True
  end.

End Stretches.

(** An invariant [I] of the state cells, carried through every stretch. *)
Definition keeps (I : State -> Prop) (s0 s : State) : Prop := I s0 -> I s.

(** The whole component is in order: the state cells satisfy [I], every
    handler in flight keeps [I] and makes only calls in [G], and so were
    all the calls made so far. *)
Definition sys_ok (I : State -> Prop) (G : Event -> Prop) (sys : Sys)
    : Prop :=
  I (ui sys)
  /\ Forall (pending_ok (keeps I) G) (inflight sys)
  /\ Forall G (log sys).

(** ** Properties of states, calls and data URIs *)

(** Modelled from the spec: [encode(bytesAsText, mimeType) -> dataUri],
    the inverse of [decode].  The source only ever builds a data URI by
    the template literal [png_data_url], which is [encode] at the type
    ['image/png']; the spec's [encode] takes any type. *)
Definition encode (bytes mime : Js.str) : Js.str :=
  Js.lit "data:" ++ mime ++ Js.lit ";base64," ++ bytes.

(** The header of a data URI: what comes before its first comma. *)
Definition header_of (uri : Js.str) : option Js.str :=
  nth_error (Js.split Js.comma uri) 0.

(** A [:<type>;] segment: a colon, then code units none of which ends a
    line, then a semicolon. *)
Definition has_type_segment (header : Js.str) : Prop :=
  exists a t z,
    header = a ++ Js.colon :: t ++ Js.semicolon :: z
    /\ forallb (fun c => negb (Js.is_line_terminator c)) t = true.

(** A MIME type that survives the trip through a data URI. *)
Definition plain_type (mime : Js.str) : bool :=
  forallb (fun c => negb ((c =? Js.comma)%N || (c =? Js.semicolon)%N
                          || Js.is_line_terminator c)) mime.

Definition no_comma (s : Js.str) : bool :=
  forallb (fun c => negb (c =? Js.comma)%N) s.

(** The condition of line 97. *)
Definition crop_usable (s : State) : bool :=
  match completedCrop s, imgRef s with
  | Some c, Some _ =>
    (0 <? Crop.width c)%float && (0 <? Crop.height c)%float
  | _, _ => false
  end.

Definition is_file_read (e : Event) : Prop :=
  match e with RemoteEvent (FileToBase64 _) => True | _ => False end.

Definition is_dom (e : Event) : Prop :=
  match e with DomEvent _ => True | _ => False end.

(** The upscale StageResult is cleared: not loading, no result, no
    error. *)
Definition upscale_cleared (s : State) : Prop :=
  isUpscaling s = false /\ upscaledImage s = None /\ upscaleError s = None.

(** What [handleUpscale] must leave alone: the edit stage, the prompt,
    the source image and the crop. *)
Definition edit_frame (s s' : State) : Prop :=
  isLoading s' = isLoading s /\ error s' = error s
  /\ editedImage s' = editedImage s /\ prompt s' = prompt s
  /\ originalImage s' = originalImage s /\ crop s' = crop s
  /\ completedCrop s' = completedCrop s /\ imgRef s' = imgRef s.

(** No stage is loading while it holds a result or an error. *)
Definition no_stale (s : State) : Prop :=
  (isLoading s = true -> editedImage s = None /\ error s = None)
  /\ (isUpscaling s = true ->
      upscaledImage s = None /\ upscaleError s = None).

(** What holds of a loading stage: no result, and no error other than
    the message of a call turned down at the door. *)
Definition loading_inv (s : State) : Prop :=
  (isLoading s = true ->
     originalImage s <> None /\ editedImage s = None
     /\ (error s = None \/ error s = Some msg_enter_prompt))
  /\ (isUpscaling s = true ->
      upscaledImage s = None
      /\ (upscaleError s = None
          \/ upscaleError s = Some msg_nothing_to_upscale)).

(** The edit result, when there is one, came out of the template. *)
Definition png_inv (s : State) : Prop :=
  match editedImage s with
  | None => True
  | Some uri => exists bytes, uri = png_data_url bytes
  end.

(** An upscale call announces a PNG. *)
Definition png_call (e : Event) : Prop :=
  match e with
  | RemoteEvent (UpscaleImage _ mime) => mime = image_png
  | _ => True
  end.

Definition any_event (e : Event) : Prop := True.

(** The five setter calls of lines 88-92. *)
Definition edit_entered (s : State) : State :=
  apply_setter (SetUpscaleError None)
    (apply_setter (SetUpscaledImage None)
       (apply_setter (SetEditedImage None)
          (apply_setter (SetError None)
             (apply_setter (SetIsLoading true) s)))).

(** The three setter calls of lines 128-130. *)
Definition upscale_entered (s : State) : State :=
  apply_setter (SetUpscaledImage None)
    (apply_setter (SetUpscaleError None)
       (apply_setter (SetIsUpscaling true) s)).

(** What is left of [handleUpscale] once [upscaleImage] has answered with
    [bytes]: lines 139 and 143. *)
Definition upscale_answered (bytes : Js.str) : Async unit :=
  finally
    (try_catch
       (update (SetUpscaledImage (Some (png_data_url bytes))))
       (fun err =>
          update (SetUpscaleError
                    (Some (message_or err msg_unexpected_upscale)))))
    (update (SetIsUpscaling false)).

(** ** Sample inputs *)

Definition sample_browser : Browser :=
  {| objectURL := fun _ => Js.lit "blob:1";
     context2d := true;
     dataURL := Js.lit "data:image/png;base64,QUJD" |}.

Definition sample_file : File :=
  {| file_name := Js.lit "photo.jpg"; file_type := Js.lit "image/jpeg" |}.

(** An 800x600 picture displayed at half its size. *)
Definition sample_img : Img.t :=
  {| Img.naturalWidth := 800; Img.naturalHeight := 600;
     Img.width := 400; Img.height := 300 |}.

Definition sample_crop : Crop.t :=
  {| Crop.x := 10; Crop.y := 10; Crop.width := 100; Crop.height := 50 |}.

(** A picture is chosen and an instruction typed; nothing else yet. *)
Definition sample_ready : State :=
  {| prompt := Js.lit "remove the background person";
     originalImage := Some {| file := sample_file;
                              previewUrl := Js.lit "blob:1" |};
     editedImage := None; isLoading := false; error := None;
     upscaledImage := None; isUpscaling := false; upscaleError := None;
     imgRef := Some sample_img; crop := None; completedCrop := None |}.

(** The same with a crop selected. *)
Definition sample_cropped : State :=
  apply_setter (SetCompletedCrop (Some sample_crop)) sample_ready.

(** An edit has succeeded. *)
Definition sample_edited : State :=
  apply_setter (SetEditedImage (Some (png_data_url (Js.lit "BBBB"))))
               sample_ready.

(** An upscale has succeeded as well. *)
Definition sample_upscaled : State :=
  apply_setter (SetUpscaledImage (Some (png_data_url (Js.lit "CCCC"))))
               sample_edited.

(** An edit succeeds and an upscale is started and left in flight. *)
Definition upscale_in_flight : list Label :=
  [ Act (PromptChange (Js.lit "p")) sample_browser;
    Act (FileChange (Some sample_file)) sample_browser;
    Act Edit sample_browser;
    Resume 0 (FileRead (Resolved {| base64 := Js.lit "AAAA";
                                    mimeType := Js.lit "image/jpeg" |}))
           sample_browser;
    Resume 0 (Bytes (Resolved (Js.lit "BBBB"))) sample_browser;
    Act Upscale sample_browser ].

(** Then the edit is started again. *)
Definition edit_restarted : list Label :=
  upscale_in_flight ++ [ Act Edit sample_browser ].

(** Then [handleUpscale] is invoked, while there is no edit result. *)
Definition upscale_turned_down : list Label :=
  edit_restarted ++ [ Act Upscale sample_browser ].

(** With the upscale in flight, another file is chosen. *)
Definition file_rechosen : list Label :=
  upscale_in_flight ++ [ Act (FileChange (Some sample_file)) sample_browser ].

(** ** Downloads *)

Definition underscore : Js.char := 95%N.

(** [/[a-z0-9]/i] on one code unit.  Without the [u] flag, case is folded
    by [toUpperCase], and a code unit above 127 is never folded onto an
    ASCII one: only the ASCII letters and digits match. *)
Definition is_alnum (c : Js.char) : bool :=
  ((97 <=? c) && (c <=? 122) || (65 <=? c) && (c <=? 90)
   || (48 <=? c) && (c <=? 57))%N.

(** [s.replace(/[^a-z0-9]/gi, '_')] *)
Definition replace_non_alnum (s : Js.str) : Js.str :=
  List.map (fun c => if is_alnum c then c else underscore) s.

(** [toLowerCase] on a string of ASCII code units, the only ones that
    [replace_non_alnum] lets through. *)
Definition toLowerCase (s : Js.str) : Js.str :=
  List.map (fun c => if ((65 <=? c) && (c <=? 90))%N then (c + 32)%N else c) s.

(** [prompt.slice(0, 50).replace(/[^a-z0-9]/gi, '_').toLowerCase()],
    lines 116 and 151. *)
Definition filename (prompt : Js.str) : Js.str :=
  toLowerCase (replace_non_alnum (firstn 50 prompt)).

(** [filename || 'download'] *)
Definition filename_or_download (prompt : Js.str) : Js.str :=
  match filename prompt with
  | [] => Js.lit "download"
  | c :: r => c :: r
  end.

(** What a download handler does with its [<a>] element. *)
Inductive AnchorCall :=
| CreateAnchor
| SetHref (v : Js.str)
| SetDownload (v : Js.str)
| AppendToBody
| Click
| RemoveFromBody.

(** [handleDownload], lines 112-121. *)
Definition handleDownload (s : State) : list AnchorCall :=
  match present (editedImage s) with
  | None => []
  | Some edited =>
    [ CreateAnchor;
      SetHref edited;
      SetDownload (Js.lit "gemini-edited-" ++ filename_or_download (prompt s)
                     ++ Js.lit ".png");
      AppendToBody; Click; RemoveFromBody ]
  end.

(** [handleDownloadUpscaled], lines 147-156. *)
Definition handleDownloadUpscaled (s : State) : list AnchorCall :=
  match present (upscaledImage s) with
  | None => []
  | Some upscaled =>
    [ CreateAnchor;
      SetHref upscaled;
      SetDownload (Js.lit "gemini-upscaled-"
                     ++ filename_or_download (prompt s) ++ Js.lit ".png");
      AppendToBody; Click; RemoveFromBody ]
  end.

(** The characters of a sanitized name: [a-z], [0-9] and [_]. *)
Definition is_name_char (c : Js.char) : bool :=
  ((97 <=? c) && (c <=? 122) || (48 <=? c) && (c <=? 57)
   || (c =? underscore))%N.

Definition is_lower_alnum (c : Js.char) : bool :=
  ((97 <=? c) && (c <=? 122) || (48 <=? c) && (c <=? 57))%N.

(** ** What the markup lets the user do *)

Definition some {A} (v : option A) : bool :=
  match v with Some _ => true | None => false end.

(** When the element that triggers an action is rendered and not
    disabled, lines 158-311: the file input and the textarea are disabled
    while [isLoading] (232, 260); the edit button while
    [isLoading || !prompt || !originalImage] (269); the upscale button is
    there when [editedImage && !isLoading] and disabled while [isUpscaling]
    (199, 204); the clear-crop button is there when
    [completedCrop && completedCrop.width > 0] (223); [ReactCrop] and its
    [<img>] are there when [originalImage] is (233-238). *)
Definition enabled (a : Action) (s : State) : bool :=
  match a with
  | FileChange _ => negb (isLoading s)
  | ClearCrop =>
    match completedCrop s with
    | Some c => (0 <? Crop.width c)%float
    | None => false
    end
  | Edit =>
    negb (isLoading s || Js.is_empty (prompt s) || negb (some (originalImage s)))
  | Upscale =>
    some (present (editedImage s)) && negb (isLoading s)
    && negb (isUpscaling s)
  | PromptChange _ => negb (isLoading s)
  | CropChange _ => some (originalImage s)
  | CropComplete _ => some (originalImage s)
  | RefChange img => Bool.eqb (some img) (some (originalImage s))
  end.

(** A step of the component as the markup allows it. *)
Definition ui_step (sys : Sys) (l : Label) : option Sys :=
  match l with
  | Act a _ => if enabled a (ui sys) then step sys l else None
  | Resume _ _ _ => step sys l
  end.

Fixpoint ui_exec (sys : Sys) (ls : list Label) : option Sys :=
  match ls with
  | [] => Some sys
  | l :: ls' =>
    match ui_step sys l with
    | Some sys' => ui_exec sys' ls'
    | None => None
    end
  end.

Inductive ui_reachable : Sys -> Prop :=
| ui_reachable_start : ui_reachable start
| ui_reachable_step sys l sys' :
    ui_reachable sys -> ui_step sys l = Some sys' -> ui_reachable sys'.

(** ** Runs in flight, by stage *)

Inductive Stage := EditStage | UpscaleStage.

Definition same_stage (a b : Stage) : bool :=
  match a, b with
  | EditStage, EditStage => true
  | UpscaleStage, UpscaleStage => true
  | _, _ => false
  end.

Definition stage_of_call (c : Remote) : Stage :=
  match c with
  | UpscaleImage _ _ => UpscaleStage
  | _ => EditStage
  end.

(** Only [handleEdit] ever stops at a [Tick]. *)
Definition stage_of (q : Pending unit) : Stage :=
  match q with
  | Ready _ => EditStage
  | Waiting c _ => stage_of_call c
  end.

(** How many runs of a stage are in flight. *)
Definition in_flight (st : Stage) (l : list (Pending unit)) : nat :=
  List.length (List.filter (fun q => same_stage (stage_of q) st) l).

Definition loading (st : Stage) (s : State) : bool :=
  match st with
  | EditStage => isLoading s
  | UpscaleStage => isUpscaling s
  end.

(** What [handleEdit] must leave alone once it is past its entry: the
    upscale stage, the prompt, the source image and the crop. *)
Definition upscale_frame_of (s s' : State) : Prop :=
  isUpscaling s' = isUpscaling s /\ upscaleError s' = upscaleError s
  /\ upscaledImage s' = upscaledImage s /\ prompt s' = prompt s
  /\ originalImage s' = originalImage s /\ crop s' = crop s
  /\ completedCrop s' = completedCrop s /\ imgRef s' = imgRef s.

(** How the last stretch of a run leaves the state: its own flag down,
    the rest of the other stage as it found it. *)
Definition settled (st : Stage) (s0 s : State) : Prop :=
  match st with
  | EditStage => isLoading s = false /\ upscale_frame_of s0 s
  | UpscaleStage => isUpscaling s = false /\ edit_frame s0 s
  end.

(** [rest_of st p s0 s]: [p] is what is left of a run of the stage [st]
    after its entry.  Until its last stretch it changes nothing and stops
    at calls of its stage only; its last stretch settles the stage. *)
Fixpoint rest_of (st : Stage) (p : Async unit) (s0 s : State) : Prop :=
  match p with
  | Ret _ => settled st s0 s
  | Throw _ => settled st s0 s
  | Set_ u k => rest_of st k s0 (apply_setter u s)
  | Dom c k => forall r, rest_of st (k r) s0 s
  | Tick k => s = s0 /\ st = EditStage /\ forall s1, rest_of st k s1 s1
  | Await c k =>
    s = s0 /\ stage_of_call c = st /\ forall r s1, rest_of st (k r) s1 s1
  end.

Definition pending_rest (q : Pending unit) : Prop :=
  match q with
  | Ready k => forall s1, rest_of EditStage k s1 s1
  | Waiting c k => forall r s1, rest_of (stage_of_call c) (k r) s1 s1
  end.

(** The component as the markup keeps it: no stage loads while it holds a
    result or an error, and a stage's flag is up exactly while one run of
    it is in flight. *)
Definition ui_ok (sys : Sys) : Prop :=
  no_stale (ui sys)
  /\ (forall st, in_flight st (inflight sys)
                 = if loading st (ui sys) then 1 else 0)
  /\ Forall pending_rest (inflight sys).

(** No error cell holds the empty string. *)
Definition errors_shown (s : State) : Prop :=
  error s <> Some [] /\ upscaleError s <> Some [].

(** Both results, when there, came out of the template. *)
Definition results_png (s : State) : Prop :=
  match editedImage s with
  | None => True
  | Some uri => exists bytes, uri = png_data_url bytes
  end
  /\ match upscaledImage s with
     | None => True
     | Some uri => exists bytes, uri = png_data_url bytes
     end.

(** What is left of [handleEdit] once its input is there: lines 103-108. *)
Definition edit_with_input (prompt0 : Js.str) (image : EncodedImage)
    : Async unit :=
  try_catch_finally
    (editedImageBytes <-
       await (EditImage (base64 image) (mimeType image) prompt0) ;;
     update (SetEditedImage (Some (png_data_url editedImageBytes))))
    (fun err => update (SetError (Some (message_or err msg_unexpected))))
    (update (SetIsLoading false)).

(** An edit answered with [e1], an upscale of it started, the edit
    started again before the upscale answers with [u], and then answered
    with [e2]: every step is one the markup allows. *)
Definition overtaken_upscale (b : Browser) (f : File)
    (p e1 e2 u : Js.str) (img1 img2 : EncodedImage) : list Label :=
  [ Act (PromptChange p) b;
    Act (FileChange (Some f)) b;
    Act Edit b;
    Resume 0 (FileRead (Resolved img1)) b;
    Resume 0 (Bytes (Resolved e1)) b;
    Act Upscale b;
    Act Edit b;
    Resume 0 (Bytes (Resolved u)) b;
    Resume 0 (FileRead (Resolved img2)) b;
    Resume 0 (Bytes (Resolved e2)) b ].

(** ** What the canvas keeps *)

From Stdlib Require Import ZArith.

(** The integer part of a number, toward zero; zero for NaN and the
    infinities.  A finite double is its sign, mantissa and exponent. *)
Definition integer_part (f : float) : Z :=
  match Prim2SF f with
  | S754_finite s m e =>
    let n := Z.shiftl (Z.pos m) e in
    if s then (- n)%Z else n
  | _ => 0%Z
  end.

(** What an [unsigned long] attribute is given when a number is assigned
    to it: the integer part, modulo 2^32. *)
Definition to_unsigned_long (f : float) : Z :=
  (integer_part f mod 4294967296)%Z.

(** [canvas.width = f] and [canvas.height = f]: the attribute keeps the
    [unsigned long], or its default when that is above 2147483647. *)
Definition canvas_dimension (default : Z) (f : float) : Z :=
  let n := to_unsigned_long f in
  if (n <=? 2147483647)%Z then n else default.

(** The size of the raster of a canvas, in pixels. *)
Record Raster := { raster_width : Z; raster_height : Z }.

(** The raster the canvas calls in [ev] leave: a new canvas is 300 by
    150, and an assignment to [width] or [height] resizes it. *)
Fixpoint raster_of (ev : list Event) (c : option Raster) : option Raster :=
  match ev with
  | [] => c
  | DomEvent CreateCanvas :: r =>
    raster_of r (Some {| raster_width := 300; raster_height := 150 |})
  | DomEvent (SetCanvasWidth w) :: r =>
    raster_of r
      (option_map
         (fun c => {| raster_width := canvas_dimension 300 w;
                      raster_height := raster_height c |}) c)
  | DomEvent (SetCanvasHeight h) :: r =>
    raster_of r
      (option_map
         (fun c => {| raster_width := raster_width c;
                      raster_height := canvas_dimension 150 h |}) c)
  | _ :: r => raster_of r c
  end.

(** A crop whose width and height are not whole numbers. *)
Definition fractional_crop : Crop.t :=
  {| Crop.x := 10; Crop.y := 10;
     Crop.width := 100.75; Crop.height := 50.5 |}.

(** ** How old a stage's result and error are *)

(** For each of the four result and error cells, whether what it holds
    was there before its stage last entered Loading: a stale value, from
    a previous run. *)
Record Age := {
  editedImage_old : bool;
  error_old : bool;
  upscaledImage_old : bool;
  upscaleError_old : bool
}.

Definition young : Age :=
  {| editedImage_old := false; error_old := false;
     upscaledImage_old := false; upscaleError_old := false |}.

(** Raising a stage's flag makes old whatever its two cells hold at that
    moment; writing a cell, be it to clear it, makes it young again. *)
Definition age_setter (u : Setter) (s : State) (a : Age) : Age :=
  match u with
  | SetIsLoading true =>
    {| editedImage_old := some (editedImage s);
       error_old := some (error s);
       upscaledImage_old := upscaledImage_old a;
       upscaleError_old := upscaleError_old a |}
  | SetIsUpscaling true =>
    {| editedImage_old := editedImage_old a;
       error_old := error_old a;
       upscaledImage_old := some (upscaledImage s);
       upscaleError_old := some (upscaleError s) |}
  | SetEditedImage _ =>
    {| editedImage_old := false;
       error_old := error_old a;
       upscaledImage_old := upscaledImage_old a;
       upscaleError_old := upscaleError_old a |}
  | SetError _ =>
    {| editedImage_old := editedImage_old a;
       error_old := false;
       upscaledImage_old := upscaledImage_old a;
       upscaleError_old := upscaleError_old a |}
  | SetUpscaledImage _ =>
    {| editedImage_old := editedImage_old a;
       error_old := error_old a;
       upscaledImage_old := false;
       upscaleError_old := upscaleError_old a |}
  | SetUpscaleError _ =>
    {| editedImage_old := editedImage_old a;
       error_old := error_old a;
       upscaledImage_old := upscaledImage_old a;
       upscaleError_old := false |}
  | _ => a
  end.

(** The ages after one synchronous stretch, setter by setter as [run]
    applies them. *)
Fixpoint age_after {A} (b : Browser) (p : Async A) (s : State) (a : Age)
    : Age :=
  match p with
  | Set_ u k => age_after b k (apply_setter u s) (age_setter u s a)
  | Dom c k => age_after b (k (answer b c)) s a
  | _ => a
  end.

(** A step of the component, with the ages kept beside it. *)
Definition aged_step (sys : Sys) (a : Age) (l : Label)
    : option (Sys * Age) :=
  match l with
  | Act act b =>
    Some (dispatch b (handler act (ui sys)) sys,
          age_after b (handler act (ui sys)) (ui sys) a)
  | Resume n r b =>
    match nth_error (inflight sys) n with
    | Some p =>
      match resume p r with
      | Some k =>
        Some (dispatch b k {| ui := ui sys;
                              inflight := remove_nth n (inflight sys);
                              log := log sys |},
              age_after b k (ui sys) a)
      | None => None
      end
    | None => None
    end
  end.

Fixpoint aged_exec (sys : Sys) (a : Age) (ls : list Label)
    : option (Sys * Age) :=
  match ls with
  | [] => Some (sys, a)
  | l :: ls' =>
    match aged_step sys a l with
    | Some (sys', a') => aged_exec sys' a' ls'
    | None => None
    end
  end.

Inductive aged_reachable : Sys -> Age -> Prop :=
| aged_reachable_start : aged_reachable start young
| aged_reachable_step sys a l sys' a' :
    aged_reachable sys a -> aged_step sys a l = Some (sys', a') ->
    aged_reachable sys' a'.

(** [aged p s0 a0 s a]: like [stretch], with the ages. *)
Section Aged.

Variable R : State -> Age -> State -> Age -> Prop.

Fixpoint aged {A} (p : Async A) (s0 : State) (a0 : Age) (s : State)
    (a : Age) : Prop :=
  match p with
  | Ret _ => R s0 a0 s a
  | Throw _ => R s0 a0 s a
  | Set_ u k => aged k s0 a0 (apply_setter u s) (age_setter u s a)
  | Dom c k => forall r, aged (k r) s0 a0 s a
  | Tick k => R s0 a0 s a /\ forall s1 a1, aged k s1 a1 s1 a1
  | Await c k => R s0 a0 s a /\ forall r s1 a1, aged (k r) s1 a1 s1 a1
  end.

Definition pending_aged {A} (q : Pending A) : Prop :=
  match q with
  | Ready k => forall s1 a1, aged k s1 a1 s1 a1
  | Waiting c k => forall r s1 a1, aged (k r) s1 a1 s1 a1
  end.

End Aged.

(** A stretch that starts with nothing old ends with nothing old. *)
Definition stays_young (s0 : State) (a0 : Age) (s : State) (a : Age)
    : Prop :=
  a0 = young -> a = young.

(** ** The component when the prompt is typed while no edit loads *)

(** As [step], but a change of the prompt waits for the edit not to be
    loading; the four handlers, the crop and the image handle are as free
    as in [step]. *)
Definition typing_confined (a : Action) (s : State) : bool :=
  match a with
  | PromptChange _ => negb (isLoading s)
  | _ => true
  end.

Definition confined_step (sys : Sys) (l : Label) : option Sys :=
  match l with
  | Act a _ => if typing_confined a (ui sys) then step sys l else None
  | Resume _ _ _ => step sys l
  end.

Inductive confined_reachable : Sys -> Prop :=
| confined_reachable_start : confined_reachable start
| confined_reachable_step sys l sys' :
    confined_reachable sys -> confined_step sys l = Some sys' ->
    confined_reachable sys'.

(** What then holds of a loading stage: the edit holds neither a result
    nor an error; the upscale holds no result, and no error but the
    message of a call turned down while it loads. *)
Definition confined_inv (s : State) : Prop :=
  (isLoading s = true ->
     originalImage s <> None /\ prompt s <> []
     /\ editedImage s = None /\ error s = None)
  /\ (isUpscaling s = true ->
      upscaledImage s = None
      /\ (upscaleError s = None
          \/ upscaleError s = Some msg_nothing_to_upscale)).

(** ** Splitting and matching *)

Unset Implicit Arguments.

Section Strings.

Variable sep : Js.char.

Let free (s : Js.str) : bool := forallb (fun c => negb (c =? sep)%N) s.

Lemma split_not_nil (s : Js.str) : Js.split sep s <> [].
Proof.
  destruct s as [|c s]; simpl; [discriminate|].
  destruct (c =? sep)%N; [discriminate|].
  destruct (Js.split sep s); discriminate.
Qed.

Lemma split_free (s : Js.str) : free s = true -> Js.split sep s = [s].
Proof.
  induction s as [|c s IH]; simpl; intros H; [reflexivity|].
  apply andb_prop in H as [Hc Hs].
  apply negb_true_iff in Hc. rewrite Hc, (IH Hs). reflexivity.
Qed.

Lemma split_at_first (h r : Js.str) :
  free h = true -> Js.split sep (h ++ sep :: r) = h :: Js.split sep r.
Proof.
  induction h as [|c h IH]; simpl; intros H.
  - rewrite N.eqb_refl. reflexivity.
  - apply andb_prop in H as [Hc Hh].
    apply negb_true_iff in Hc. rewrite Hc, (IH Hh). reflexivity.
Qed.

End Strings.

Lemma lazy_until_semicolon_inv (s t : Js.str) :
  Js.lazy_until_semicolon s = Some t ->
  exists z, s = t ++ Js.semicolon :: z
            /\ forallb (fun c => negb (Js.is_line_terminator c)) t = true.
Proof.
  revert t. induction s as [|c s IH]; simpl; intros t H; [discriminate|].
  destruct (c =? Js.semicolon)%N eqn:Hc.
  - injection H as <-. apply N.eqb_eq in Hc. subst c.
    exists s. split; reflexivity.
  - destruct (Js.is_line_terminator c) eqn:Hl; [discriminate|].
    destruct (Js.lazy_until_semicolon s) as [t'|]; [|discriminate].
    injection H as <-. destruct (IH t' eq_refl) as (z & -> & Ht).
    exists z. split; [reflexivity|]. simpl. rewrite Hl, Ht. reflexivity.
Qed.

Lemma lazy_until_semicolon_app (t z : Js.str) :
  forallb (fun c => negb ((c =? Js.semicolon)%N || Js.is_line_terminator c))
          t = true ->
  Js.lazy_until_semicolon (t ++ Js.semicolon :: z) = Some t.
Proof.
  induction t as [|c t IH]; simpl; intros H; [reflexivity|].
  apply andb_prop in H as [Hc Ht].
  apply negb_true_iff, orb_false_iff in Hc as [Hc Hl].
  rewrite Hc, Hl, (IH Ht). reflexivity.
Qed.

Lemma match_type_inv (h t : Js.str) :
  Js.match_type h = Some t ->
  exists a z, h = a ++ Js.colon :: t ++ Js.semicolon :: z
              /\ forallb (fun c => negb (Js.is_line_terminator c)) t = true.
Proof.
  induction h as [|c h IH]; simpl; intros H; [discriminate|].
  assert (Hrec : Js.match_type h = Some t ->
                 exists a z, c :: h = a ++ Js.colon :: t ++ Js.semicolon :: z
                   /\ forallb (fun c => negb (Js.is_line_terminator c)) t
                      = true).
  { intros H'. destruct (IH H') as (a & z & -> & Ht).
    exists (c :: a), z. split; [reflexivity|exact Ht]. }
  destruct (c =? Js.colon)%N eqn:Hc; [|exact (Hrec H)].
  destruct (Js.lazy_until_semicolon h) as [t'|] eqn:Hl; [|exact (Hrec H)].
  injection H as <-. apply N.eqb_eq in Hc. subst c.
  destruct (lazy_until_semicolon_inv _ _ Hl) as (z & -> & Ht).
  exists [], z. split; [reflexivity|exact Ht].
Qed.

Lemma match_type_none (h : Js.str) :
  ~ has_type_segment h -> Js.match_type h = None.
Proof.
  intros H. destruct (Js.match_type h) as [t|] eqn:E; [|reflexivity].
  exfalso. apply H. destruct (match_type_inv _ _ E) as (a & z & Hh & Ht).
  exists a, t, z. split; assumption.
Qed.

Lemma no_comma_app (a b : Js.str) :
  no_comma (a ++ b) = no_comma a && no_comma b.
Proof. apply forallb_app. Qed.

Lemma plain_type_no_comma (mime : Js.str) :
  plain_type mime = true -> no_comma mime = true.
Proof.
  induction mime as [|c m IH]; simpl; intros H; [reflexivity|].
  apply andb_prop in H as [Hc Hm]. rewrite (IH Hm), andb_true_r.
  apply negb_true_iff in Hc. apply orb_false_iff in Hc as [Hc _].
  apply orb_false_iff in Hc as [Hc _]. rewrite Hc. reflexivity.
Qed.

Lemma plain_type_lazy (mime : Js.str) :
  plain_type mime = true ->
  forallb (fun c => negb ((c =? Js.semicolon)%N || Js.is_line_terminator c))
          mime = true.
Proof.
  induction mime as [|c m IH]; simpl; intros H; [reflexivity|].
  apply andb_prop in H as [Hc Hm]. rewrite (IH Hm), andb_true_r.
  apply negb_true_iff in Hc. apply orb_false_iff in Hc as [Hc Hl].
  apply orb_false_iff in Hc as [_ Hc]. rewrite Hc, Hl. reflexivity.
Qed.

(** The data URI of the spec, header and payload apart. *)
Lemma encode_parts (bytes mime : Js.str) :
  encode bytes mime
  = (Js.lit "data:" ++ mime ++ Js.lit ";base64") ++ Js.comma :: bytes.
Proof.
  unfold encode. rewrite <- !app_assoc.
  change (Js.lit ";base64,") with (Js.lit ";base64" ++ [Js.comma]).
  rewrite <- app_assoc. reflexivity.
Qed.

Lemma png_data_url_encode (bytes : Js.str) :
  png_data_url bytes = encode bytes image_png.
Proof. reflexivity. Qed.

(** [decode] on a URI whose header [h] is free of commas. *)
Lemma decode_parts (h d : Js.str) (tail : option Js.str) :
  no_comma h = true -> no_comma d = true ->
  decode (h ++ Js.comma :: d
            ++ match tail with Some t => Js.comma :: t | None => [] end)
  = if Js.is_empty h || Js.is_empty d then None
    else Some {| base64 := d;
                 mimeType := match Js.match_type h with
                             | Some t => t
                             | None => image_png
                             end |}.
Proof.
  intros Hh Hd. unfold decode. rewrite (split_at_first _ _ _ Hh).
  destruct tail as [t|].
  - rewrite (split_at_first _ _ _ Hd). reflexivity.
  - rewrite app_nil_r, (split_free _ _ Hd). reflexivity.
Qed.

(** ** The payload codec *)

(** C6.  [decode] fails on a data URI that has no comma, and on one
    whose first comma has nothing before it or nothing after it: there is
    no header/payload split.  On a URI that does split into a non-empty
    header and a non-empty payload, a header without a [:<type>;] segment
    does not make it fail: the MIME type is then ['image/png']. *)
Theorem decode_lenient :
  (forall uri, no_comma uri = true -> decode uri = None)
  /\ (forall rest, decode (Js.comma :: rest) = None)
  /\ (forall header, no_comma header = true ->
        decode (header ++ [Js.comma]) = None)
  /\ (forall header data tail,
        header <> [] -> data <> [] ->
        no_comma header = true -> no_comma data = true ->
        ~ has_type_segment header ->
        decode (header ++ Js.comma :: data
                  ++ match tail with Some t => Js.comma :: t | None => [] end)
        = Some {| base64 := data; mimeType := image_png |}).
Proof.
  split; [|split; [|split]].
  - intros uri H. unfold decode. rewrite (split_free _ _ H). reflexivity.
  - intros rest. unfold decode. cbn [Js.split].
    rewrite N.eqb_refl. cbn [nth_error].
    destruct (Js.split Js.comma rest); reflexivity.
  - intros header H.
    pose proof (decode_parts header [] None H eq_refl) as Hd.
    cbn [app] in Hd. rewrite Hd. destruct header; reflexivity.
  - intros header data tail Hh Hd Ch Cd Hseg.
    rewrite (decode_parts _ _ _ Ch Cd), (match_type_none _ Hseg).
    destruct header; [congruence|]. destruct data; [congruence|].
    reflexivity.
Qed.

Lemma decode_lenient_witness :
  decode (Js.lit "AAAA") = None
  /\ decode (Js.lit "data-image-png,AAAA")
     = Some {| base64 := Js.lit "AAAA"; mimeType := image_png |}.
Proof.
  destruct decode_lenient as (Hno & _ & _ & Hdef). split.
  - apply Hno. reflexivity.
  - apply (Hdef (Js.lit "data-image-png") (Js.lit "AAAA") None).
    + discriminate.
    + discriminate.
    + reflexivity.
    + reflexivity.
    + intros (a & t & z & H & _).
      assert (Hin : In Js.colon (Js.lit "data-image-png")).
      { rewrite H. apply in_or_app. right. left. reflexivity. }
      vm_compute in Hin. intuition discriminate.
Defined.

(** C7, as the spec has it, fails: a MIME string with a parameter comes
    back cut at its semicolon. *)
Lemma decode_encode_not_identity :
  decode (encode (Js.lit "AAAA") (Js.lit "text/plain;charset=utf-8"))
  = Some {| base64 := Js.lit "AAAA"; mimeType := Js.lit "text/plain" |}
  /\ Js.lit "text/plain" <> Js.lit "text/plain;charset=utf-8".
Proof. split; [reflexivity|discriminate]. Qed.

(** C7, amended.  For a non-empty payload without a comma and a MIME
    string without a comma, a semicolon or a line terminator, decoding the
    data URI built from them gives them back. *)
Theorem decode_encode (bytes mime : Js.str) :
  bytes <> [] -> no_comma bytes = true -> plain_type mime = true ->
  decode (encode bytes mime) = Some {| base64 := bytes; mimeType := mime |}.
Proof.
  intros Hne Hb Hm.
  pose proof (decode_parts (Js.lit "data:" ++ mime ++ Js.lit ";base64")
                bytes None) as Hd.
  simpl app in Hd at 2. rewrite app_nil_r in Hd.
  rewrite encode_parts, Hd; clear Hd.
  - destruct bytes as [|c bytes]; [congruence|].
    change (Js.lit "data:") with [100; 97; 116; 97; 58]%N.
    change (Js.lit ";base64") with (Js.semicolon :: Js.lit "base64").
    cbn [app Js.is_empty orb Js.match_type N.eqb Js.colon Pos.eqb].
    rewrite (lazy_until_semicolon_app _ _ (plain_type_lazy _ Hm)).
    reflexivity.
  - rewrite !no_comma_app, (plain_type_no_comma _ Hm). reflexivity.
  - exact Hb.
Qed.

Lemma decode_encode_witness :
  decode (encode (Js.lit "iVBORw0KGgo=") (Js.lit "image/jpeg"))
  = Some {| base64 := Js.lit "iVBORw0KGgo="; mimeType := Js.lit "image/jpeg" |}.
Proof.
  apply decode_encode; [discriminate | reflexivity | reflexivity].
Defined.

(** ** The rasterizer *)

(** The canvas calls of [getCroppedImg].  With a 2-D context at hand it
    assigns the crop's own width and height to the canvas, and draws the
    source rectangle at [(x*scaleX, y*scaleY)] of size
    [(width*scaleX, height*scaleY)], where [scaleX = naturalWidth/width]
    and [scaleY = naturalHeight/height], onto the canvas at [(0,0)] with
    the crop's size. *)
Theorem getCroppedImg_draws (b : Browser) (s : State) :
  context2d b = true ->
  (forall image crop,
     let scaleX := (Img.naturalWidth image / Img.width image)%float in
     let scaleY := (Img.naturalHeight image / Img.height image)%float in
     calls b (getCroppedImg image crop) s
     = [ DomEvent CreateCanvas;
         DomEvent (SetCanvasWidth (Crop.width crop));
         DomEvent (SetCanvasHeight (Crop.height crop));
         DomEvent GetContext2d;
         DomEvent (SetImageSmoothingQuality high);
         DomEvent (DrawImage image
                     (Crop.x crop * scaleX) (Crop.y crop * scaleY)
                     (Crop.width crop * scaleX) (Crop.height crop * scaleY)
                     0 0 (Crop.width crop) (Crop.height crop));
         DomEvent (ToDataURL image_png) ])
  /\ calls b (getCroppedImg sample_img sample_crop) s
     = [ DomEvent CreateCanvas;
         DomEvent (SetCanvasWidth 100);
         DomEvent (SetCanvasHeight 50);
         DomEvent GetContext2d;
         DomEvent (SetImageSmoothingQuality high);
         DomEvent (DrawImage sample_img 20 20 200 100 0 0 100 50);
         DomEvent (ToDataURL image_png) ].
Proof.
  intros Hctx.
  assert (Hgen : forall image crop,
    calls b (getCroppedImg image crop) s
    = [ DomEvent CreateCanvas;
        DomEvent (SetCanvasWidth (Crop.width crop));
        DomEvent (SetCanvasHeight (Crop.height crop));
        DomEvent GetContext2d;
        DomEvent (SetImageSmoothingQuality high);
        DomEvent (DrawImage image
          (Crop.x crop * (Img.naturalWidth image / Img.width image))
          (Crop.y crop * (Img.naturalHeight image / Img.height image))
          (Crop.width crop * (Img.naturalWidth image / Img.width image))
          (Crop.height crop * (Img.naturalHeight image / Img.height image))
          0 0 (Crop.width crop) (Crop.height crop));
        DomEvent (ToDataURL image_png) ]).
  { intros image crop. unfold calls, getCroppedImg. cbn.
    rewrite Hctx. cbn. destruct (decode (dataURL b)); reflexivity. }
  split.
  - intros image crop. cbv zeta. apply Hgen.
  - rewrite Hgen. reflexivity.
Qed.

Lemma getCroppedImg_draws_witness :
  In (DomEvent (DrawImage sample_img 20 20 200 100 0 0 100 50))
     (calls sample_browser (getCroppedImg sample_img sample_crop) initial).
Proof.
  destruct (getCroppedImg_draws sample_browser initial eq_refl) as [_ H].
  rewrite H. simpl. tauto.
Defined.

(** ** Reachability *)

Lemma exec_reachable (ls : list Label) :
  forall sys sys', reachable sys -> exec sys ls = Some sys' -> reachable sys'.
Proof.
  induction ls as [|l ls IH]; simpl; intros sys sys' Hr H.
  - injection H as <-. exact Hr.
  - destruct (step sys l) as [sys1|] eqn:E; [|discriminate].
    exact (IH _ _ (reachable_step l Hr E) H).
Qed.

Lemma not_empty_prompt (p : Js.str) : p <> [] -> Js.is_empty p = false.
Proof. destruct p; [congruence|reflexivity]. Qed.

(** ** The first stretch of [handleEdit] *)

Lemma handleEdit_entry (b : Browser) (s : State) :
  originalImage s <> None -> prompt s <> [] ->
  after b (handleEdit s) s = edit_entered s.
Proof.
  intros Ho Hp. unfold after, handleEdit.
  destruct (originalImage s) as [original|]; [|congruence].
  rewrite (not_empty_prompt _ Hp). unfold imageToEdit.
  destruct (completedCrop s) as [c|]; [|reflexivity].
  destruct (imgRef s) as [img|]; [|reflexivity].
  destruct ((0 <? Crop.width c)%float && (0 <? Crop.height c)%float);
    [|reflexivity].
  unfold getCroppedImg. cbn. destruct (context2d b); cbn; [|reflexivity].
  destruct (decode (dataURL b)); reflexivity.
Qed.

(** C1, as the spec has it, fails: with an upscale in flight, an edit that
    starts leaves [upscale.isLoading] true. *)
Lemma edit_entry_keeps_upscale_loading :
  exists sys,
    exec start edit_restarted = Some sys
    /\ isLoading (ui sys) = true
    /\ isUpscaling (ui sys) = true
    /\ ~ upscale_cleared (ui sys).
Proof.
  eexists. split; [vm_compute; reflexivity|].
  split; [reflexivity|]. split; [reflexivity|].
  intros [H _]. discriminate H.
Qed.

(** C1, amended.  Once it has a source image and a prompt, [handleEdit]
    sets [isLoading], clears [error], [editedImage], [upscaledImage] and
    [upscaleError] before it first suspends, and leaves [isUpscaling] as
    it was.  So when an upscale has just completed with a result, which
    sets [isUpscaling] to false, an edit that starts next has the upscale
    StageResult fully cleared while it is itself still loading. *)
Theorem edit_entry :
  (forall b s,
     originalImage s <> None -> prompt s <> [] ->
     let s' := after b (handleEdit s) s in
     isLoading s' = true /\ error s' = None /\ editedImage s' = None
     /\ upscaledImage s' = None /\ upscaleError s' = None
     /\ isUpscaling s' = isUpscaling s)
  /\ (forall b1 s1 q bytes k,
        outcome b1 (handleUpscale s1) s1 = Paused q ->
        resume q (Bytes (Resolved bytes)) = Some k ->
        forall b2 s2,
          let s3 := after b2 k s2 in
          isUpscaling s3 = false
          /\ upscaledImage s3 = Some (png_data_url bytes)
          /\ (originalImage s3 <> None -> prompt s3 <> [] ->
              forall b3,
                let s4 := after b3 (handleEdit s3) s3 in
                isLoading s4 = true /\ upscale_cleared s4)).
Proof.
  split.
  - intros b s Ho Hp. cbv zeta. rewrite (handleEdit_entry _ _ Ho Hp).
    simpl. tauto.
  - intros b1 s1 q bytes k. unfold outcome, handleUpscale.
    destruct (present (editedImage s1)) as [edited|]; [|discriminate].
    destruct (decode edited) as [img|]; [|discriminate].
    cbn -[after handleEdit]. intros Hq. injection Hq as <-.
    cbn -[after handleEdit]. intros Hk. injection Hk as <-.
    intros b2 s2. set (s3 := after b2 _ s2).
    assert (Hu : isUpscaling s3 = false) by reflexivity.
    assert (Hi : upscaledImage s3 = Some (png_data_url bytes))
      by reflexivity.
    clearbody s3. split; [exact Hu|]. split; [exact Hi|].
    intros Ho Hp b3. rewrite (handleEdit_entry _ _ Ho Hp).
    unfold upscale_cleared. simpl. rewrite Hu. tauto.
Qed.

Lemma edit_entry_witness :
  (let s' := after sample_browser (handleEdit sample_upscaled)
                   sample_upscaled in
   isLoading s' = true /\ upscale_cleared s')
  /\ (let s3 := after sample_browser (upscale_answered (Js.lit "CCCC"))
                      (upscale_entered sample_edited) in
      let s4 := after sample_browser (handleEdit s3) s3 in
      isLoading s4 = true /\ upscale_cleared s4).
Proof.
  destruct edit_entry as [H1 H2]. split.
  - destruct (H1 sample_browser sample_upscaled) as (Hl & _ & _ & Hu & He & Hf).
    + discriminate.
    + discriminate.
    + cbv zeta. unfold upscale_cleared. rewrite Hl, Hu, He, Hf.
      repeat split.
  - refine (proj2 (proj2 (H2 sample_browser sample_edited _ (Js.lit "CCCC")
                             _ eq_refl eq_refl sample_browser
                             (upscale_entered sample_edited)))
                  _ _ sample_browser);
      discriminate.
Defined.

(** ** Selecting a new source *)

(** C2, as the spec has it, fails: with an upscale in flight, choosing a
    new file leaves [upscale.isLoading] true. *)
Lemma file_change_keeps_loading :
  exists sys,
    exec start file_rechosen = Some sys
    /\ isUpscaling (ui sys) = true
    /\ ~ upscale_cleared (ui sys).
Proof.
  eexists. split; [vm_compute; reflexivity|].
  split; [reflexivity|]. intros [H _]. discriminate H.
Qed.

(** C2, amended.  Whatever the state before, [handleFileChange] with a
    file replaces [originalImage], clears [crop] and [completedCrop], and
    clears the result and the error of both stages; the two loading flags
    and the prompt stay as they were. *)
Theorem file_change_resets (b : Browser) (s : State) (f : File) :
  let s' := after b (handleFileChange (Some f)) s in
  originalImage s' = Some {| file := f; previewUrl := objectURL b f |}
  /\ crop s' = None /\ completedCrop s' = None
  /\ editedImage s' = None /\ error s' = None
  /\ upscaledImage s' = None /\ upscaleError s' = None
  /\ isLoading s' = isLoading s /\ isUpscaling s' = isUpscaling s
  /\ prompt s' = prompt s.
Proof. simpl. repeat split. Qed.

(** ** Which input the edit takes *)

Ltac answers :=
  repeat match goal with
         | |- _ /\ _ => split
         | |- forall _, _ => intro
         | |- ~ _ => intro
         | r : Settled _ |- _ => destruct r
         | r : bool |- _ => destruct r
         | H : False |- _ => destruct H
         | |- context [decode ?u] => destruct (decode u)
         | H : is_file_read _ |- _ => exact H
         | H : is_dom _ |- _ => exact H
         | _ => progress cbn in *
         | |- True => exact I
         end.

(** C4.  Past its two checks, [handleEdit] takes its input one way only.
    When [completedCrop] is there with a width and a height above zero
    and [imgRef.current] is there, it calls [getCroppedImg] on them, and
    [fileToBase64] is never called; otherwise it calls [fileToBase64] on
    the file of [originalImage], and makes no DOM call at all.  Without a
    [completedCrop] it is the second. *)
Theorem edit_input_path (b : Browser) (s : State) (original : SourceImage) :
  originalImage s = Some original -> prompt s <> [] ->
  (crop_usable s = true ->
     exists img c,
       imgRef s = Some img /\ completedCrop s = Some c
       /\ calls b (handleEdit s) s = calls b (getCroppedImg img c) s
       /\ only (fun e => ~ is_file_read e) (handleEdit s))
  /\ (crop_usable s = false ->
        calls b (handleEdit s) s = [RemoteEvent (FileToBase64 (file original))]
        /\ only (fun e => ~ is_dom e) (handleEdit s))
  /\ (completedCrop s = None -> crop_usable s = false).
Proof.
  intros Ho Hp. unfold crop_usable, calls, handleEdit, imageToEdit.
  rewrite Ho, (not_empty_prompt _ Hp).
  destruct (completedCrop s) as [c|]; [destruct (imgRef s) as [img|]|].
  - destruct ((0 <? Crop.width c)%float && (0 <? Crop.height c)%float).
    + split; [intros _|split; intros; discriminate].
      exists img, c. split; [reflexivity|]. split; [reflexivity|]. split.
      * unfold getCroppedImg. cbn. destruct (context2d b); cbn;
          [destruct (decode (dataURL b))|]; reflexivity.
      * unfold getCroppedImg. answers.
    + split; [intros; discriminate|]. split; [intros _|intros; discriminate].
      split; [reflexivity|]. answers.
  - split; [intros; discriminate|]. split; [intros _|intros; discriminate].
    split; [reflexivity|]. answers.
  - split; [intros; discriminate|]. split; [intros _|reflexivity].
    split; [reflexivity|]. answers.
Qed.

Lemma edit_input_path_witness :
  calls sample_browser (handleEdit sample_ready) sample_ready
  = [RemoteEvent (FileToBase64 sample_file)]
  /\ In (DomEvent (DrawImage sample_img 20 20 200 100 0 0 100 50))
        (calls sample_browser (handleEdit sample_cropped) sample_cropped).
Proof.
  split.
  - destruct (edit_input_path sample_browser sample_ready
                {| file := sample_file; previewUrl := Js.lit "blob:1" |}
                eq_refl ltac:(discriminate)) as (_ & H & _).
    exact (proj1 (H eq_refl)).
  - destruct (edit_input_path sample_browser sample_cropped
                {| file := sample_file; previewUrl := Js.lit "blob:1" |}
                eq_refl ltac:(discriminate)) as (H & _ & _).
    destruct (H eq_refl) as (img & c & Hi & Hc & He & _).
    injection Hi as <-. injection Hc as <-. rewrite He.
    simpl. tauto.
Defined.

(** ** Calls turned down at the door *)

(** C5.  [handleEdit] without a source image, or with one and an empty
    prompt, sets [error] to the message of that case, leaves [isLoading]
    as it was, makes no call and is over; [handleUpscale] without an edit
    result sets [upscaleError] to its message, leaves [isUpscaling] as it
    was, makes no call and is over.  None of the messages is empty and the
    two of [handleEdit] differ. *)
Theorem validation_failures (b : Browser) (s : State) :
  (originalImage s = None ->
     let s' := after b (handleEdit s) s in
     error s' = Some msg_upload_first /\ isLoading s' = isLoading s
     /\ calls b (handleEdit s) s = []
     /\ outcome b (handleEdit s) s = Returned tt)
  /\ (originalImage s <> None -> prompt s = [] ->
        let s' := after b (handleEdit s) s in
        error s' = Some msg_enter_prompt /\ isLoading s' = isLoading s
        /\ calls b (handleEdit s) s = []
        /\ outcome b (handleEdit s) s = Returned tt)
  /\ (editedImage s = None ->
        let s' := after b (handleUpscale s) s in
        upscaleError s' = Some msg_nothing_to_upscale
        /\ isUpscaling s' = isUpscaling s
        /\ calls b (handleUpscale s) s = []
        /\ outcome b (handleUpscale s) s = Returned tt)
  /\ msg_upload_first <> [] /\ msg_enter_prompt <> []
  /\ msg_nothing_to_upscale <> [] /\ msg_upload_first <> msg_enter_prompt.
Proof.
  unfold after, calls, outcome, handleEdit, handleUpscale.
  split; [|split; [|split]].
  - intros ->. repeat split.
  - intros Ho ->. destruct (originalImage s); [|congruence]. repeat split.
  - intros ->. repeat split.
  - repeat split; discriminate.
Qed.

Lemma validation_failures_witness :
  isLoading (after sample_browser (handleEdit initial) initial) = false
  /\ isUpscaling (after sample_browser (handleUpscale sample_ready)
                        sample_ready) = false.
Proof.
  destruct (validation_failures sample_browser initial) as (He & _).
  destruct (validation_failures sample_browser sample_ready)
    as (_ & _ & Hu & _).
  split.
  - exact (proj1 (proj2 (He eq_refl))).
  - exact (proj1 (proj2 (Hu eq_refl))).
Defined.

(** ** Soundness of the logic of stretches *)

Lemma remove_nth_Forall {A} (P : A -> Prop) (n : nat) :
  forall l, Forall P l -> Forall P (remove_nth n l).
Proof.
  unfold remove_nth. induction n as [|n IH]; intros l H.
  - destruct H; simpl; [constructor|assumption].
  - destruct H as [|x l Hx Hl]; simpl; [constructor|].
    constructor; [exact Hx|exact (IH _ Hl)].
Qed.

Section Soundness.

Variable R : State -> State -> Prop.
Variable G : Event -> Prop.

Lemma run_sound {A} (b : Browser) (p : Async A) :
  forall s0 s, stretch R p s0 s -> only G p ->
    R s0 (after b p s) /\ Forall G (calls b p s)
    /\ outcome_ok R G (outcome b p s).
Proof.
  unfold after, calls, outcome.
  induction p as [a|e|u k IH|c k IH|k IH|c k IH]; simpl; intros s0 s Hs Ho.
  - repeat split; [exact Hs|constructor].
  - repeat split; [exact Hs|constructor].
  - exact (IH _ _ Hs Ho).
  - destruct Ho as [Hc Ho].
    destruct (IH (answer b c) s0 s (Hs _) (Ho _)) as (H1 & H2 & H3).
    destruct (run b (k (answer b c)) s) as [[s' ev] o]. simpl in *.
    repeat split; [exact H1|constructor; assumption|exact H3].
  - destruct Hs as [Hs Hk].
    repeat split; [exact Hs|constructor|exact Hk|exact Ho].
  - destruct Hs as [Hs Hk]. destruct Ho as [Hc Ho].
    repeat split; [exact Hs|repeat constructor; exact Hc|apply Hk|apply Ho].
Qed.

Lemma resume_sound (q : Pending unit) (r : Reply) (k : Async unit) :
  pending_ok R G q -> resume q r = Some k ->
  (forall s1, stretch R k s1 s1) /\ only G k.
Proof.
  destruct q as [k0|c k0]; simpl; intros Hq H.
  - destruct r; try discriminate. injection H as <-. exact Hq.
  - destruct c; destruct r; try discriminate; injection H as <-; apply Hq.
Qed.

End Soundness.

Section Invariants.

Variable I : State -> Prop.
Variable G : Event -> Prop.

Hypothesis I_initial : I initial.
Hypothesis handlers_keep :
  forall a s, I s -> stretch (keeps I) (handler a s) s s
                     /\ only G (handler a s).

Lemma dispatch_ok (b : Browser) (p : Async unit) (sys : Sys) :
  sys_ok I G sys -> stretch (keeps I) p (ui sys) (ui sys) -> only G p ->
  sys_ok I G (dispatch b p sys).
Proof.
  intros (Hi & Hf & Hl) Hs Ho.
  destruct (run_sound (keeps I) G b p _ _ Hs Ho) as (H1 & H2 & H3).
  unfold after, calls, outcome in *. unfold dispatch.
  destruct (run b p (ui sys)) as [[s' ev] o]. simpl in *.
  split; [exact (H1 Hi)|]. split.
  - destruct o as [a|e|q]; try exact Hf.
    apply Forall_app. split; [exact Hf|]. constructor; [exact H3|constructor].
  - apply Forall_app. split; assumption.
Qed.

Lemma step_ok (sys sys' : Sys) (l : Label) :
  sys_ok I G sys -> step sys l = Some sys' -> sys_ok I G sys'.
Proof.
  intros Hok H. destruct l as [a b|n r b]; simpl in H.
  - injection H as <-. destruct (handlers_keep a (ui sys) (proj1 Hok)).
    apply dispatch_ok; assumption.
  - destruct (nth_error (inflight sys) n) as [q|] eqn:Eq; [|discriminate].
    destruct (resume q r) as [k|] eqn:Ek; [|discriminate].
    injection H as <-. destruct Hok as (Hi & Hf & Hl).
    assert (Hq : pending_ok (keeps I) G q).
    { apply (proj1 (Forall_forall _ _) Hf). exact (nth_error_In _ _ Eq). }
    destruct (resume_sound _ _ _ _ _ Hq Ek) as [Hs Ho].
    apply dispatch_ok; [|apply Hs|exact Ho].
    split; [exact Hi|]. split; [|exact Hl].
    simpl. apply remove_nth_Forall. exact Hf.
Qed.

Lemma reachable_ok (sys : Sys) : reachable sys -> sys_ok I G sys.
Proof.
  induction 1 as [|sys l sys' _ IH Hstep].
  - split; [exact I_initial|]. split; constructor.
  - exact (step_ok _ _ _ IH Hstep).
Qed.

End Invariants.

(** ** The upscale leaves the edit alone *)

Ltac framed := unfold edit_frame; cbn; repeat split.

(** C8.  [handleUpscale] changes nothing of the edit stage, the prompt,
    the source image or the crop: not in its first stretch, and not in
    the stretch that follows the answer of [upscaleImage], whatever the
    answer (a result or a failure) and whatever the state by then, and
    that stretch is its last.  When it gets as far as the remote call,
    its first stretch is exactly: set [isUpscaling], clear [upscaleError],
    clear [upscaledImage]. *)
Theorem upscale_frame (b : Browser) (s : State) :
  edit_frame s (after b (handleUpscale s) s)
  /\ stretch edit_frame (handleUpscale s) s s
  /\ (forall q,
        outcome b (handleUpscale s) s = Paused q ->
        after b (handleUpscale s) s = upscale_entered s
        /\ forall r k,
             resume q r = Some k ->
             forall b' s1,
               edit_frame s1 (after b' k s1)
               /\ outcome b' k s1 = Returned tt).
Proof.
  unfold after, outcome, handleUpscale.
  destruct (present (editedImage s)) as [edited|].
  - destruct (decode edited) as [img|]; cbn.
    + split; [framed|]. split.
      * split; [framed|]. intros [bytes|e] s1; cbn; framed.
      * intros q Hq. injection Hq as <-. split; [reflexivity|].
        intros r k Hk b' s1. cbn in Hk.
        destruct r as [|x|[bytes|e]]; try discriminate;
          injection Hk as <-; cbn; split; (framed || reflexivity).
    + split; [framed|]. split; [framed|]. discriminate.
  - cbn. split; [framed|]. split; [framed|]. discriminate.
Qed.

Lemma upscale_frame_witness :
  after sample_browser (handleUpscale sample_edited) sample_edited
  = upscale_entered sample_edited
  /\ edit_frame sample_upscaled
       (after sample_browser (upscale_answered (Js.lit "DDDD"))
              sample_upscaled).
Proof.
  destruct (upscale_frame sample_browser sample_edited) as (_ & _ & H).
  destruct (H _ eq_refl) as [He Hk]. split; [exact He|].
  exact (proj1 (Hk (Bytes (Resolved (Js.lit "DDDD"))) _ eq_refl
                   sample_browser sample_upscaled)).
Defined.

(** ** Loading and results *)

Ltac stretches :=
  repeat match goal with
         | |- _ /\ _ => split
         | |- forall _, _ => intro
         | r : Settled _ |- _ => destruct r
         | r : bool |- _ => destruct r
         | |- context [decode ?u] => destruct (decode u)
         | |- True => exact I
         | |- any_event _ => exact I
         | _ => progress cbn -[msg_upload_first msg_enter_prompt
                               msg_unexpected msg_nothing_to_upscale
                               msg_invalid_format msg_unexpected_upscale
                               png_data_url Js.lit]
         end.

Ltac kept I :=
  unfold keeps, I;
  cbn [apply_setter prompt originalImage editedImage isLoading error
       upscaledImage isUpscaling upscaleError imgRef crop completedCrop];
  intuition (discriminate || congruence).

Lemma handlers_keep_loading_inv (a : Action) (s : State) :
  loading_inv s ->
  stretch (keeps loading_inv) (handler a s) s s
  /\ only any_event (handler a s).
Proof.
  intros Hs. destruct a as [[f|]| | | |v|c|c|img]; cbn [handler].
  - stretches. kept loading_inv.
  - stretches. kept loading_inv.
  - stretches. kept loading_inv.
  - unfold handleEdit, imageToEdit.
    destruct (originalImage s) as [original|] eqn:Eo.
    + destruct (Js.is_empty (prompt s)).
      * stretches. kept loading_inv.
      * destruct (completedCrop s) as [c|]; [destruct (imgRef s) as [img|]|];
          [destruct ((0 <? Crop.width c)%float && (0 <? Crop.height c)%float)
          | |];
          unfold getCroppedImg; stretches; rewrite ?Eo; kept loading_inv.
    + stretches. revert Hs. rewrite ?Eo. kept loading_inv.
  - unfold handleUpscale.
    destruct (present (editedImage s)) as [edited|];
      stretches; kept loading_inv.
  - stretches. kept loading_inv.
  - stretches. kept loading_inv.
  - stretches. kept loading_inv.
  - stretches. kept loading_inv.
Qed.

(** A loading stage can hold an error all the same, one written while it
    loads: with an upscale in flight and the edit started again, an
    upscale turned down for want of an edit result leaves the upscale
    stage loading and holding that call's message. *)
Lemma loading_with_error :
  exists sys,
    exec start upscale_turned_down = Some sys
    /\ isUpscaling (ui sys) = true
    /\ upscaleError (ui sys) = Some msg_nothing_to_upscale
    /\ ~ no_stale (ui sys).
Proof.
  eexists. split; [vm_compute; reflexivity|].
  split; [reflexivity|]. split; [reflexivity|].
  intros [_ H]. destruct (H eq_refl) as [_ He]. discriminate He.
Qed.

(** In every state the component can reach, a stage that is loading holds
    no result image, and holds no error message other than the one of a
    call turned down while it was loading (the missing prompt for the
    edit, the missing edit result for the upscale).  Entering the loading
    state clears the stage's result and error: the edit once its two
    checks pass, the upscale once it has an edit result, unless that
    result does not decode, which fails the upscale on the spot. *)
Theorem loading_holds_no_result :
  (forall sys, reachable sys -> loading_inv (ui sys))
  /\ (forall b s,
        originalImage s <> None -> prompt s <> [] ->
        let s' := after b (handleEdit s) s in
        isLoading s' = true /\ editedImage s' = None /\ error s' = None)
  /\ (forall b s,
        present (editedImage s) <> None ->
        let s' := after b (handleUpscale s) s in
        upscaledImage s' = None
        /\ (isUpscaling s' = true -> upscaleError s' = None)
        /\ (isUpscaling s' = false ->
            upscaleError s' = Some msg_invalid_format)).
Proof.
  split; [|split].
  - intros sys Hr.
    refine (proj1 (reachable_ok loading_inv any_event _
                     handlers_keep_loading_inv sys Hr)).
    split; discriminate.
  - intros b s Ho Hp. cbv zeta. rewrite (handleEdit_entry _ _ Ho Hp).
    repeat split.
  - intros b s He. unfold after, handleUpscale.
    destruct (present (editedImage s)) as [edited|]; [|congruence].
    destruct (decode edited); cbn; repeat split; discriminate.
Qed.

Lemma loading_holds_no_result_witness :
  exists sys, exec start upscale_turned_down = Some sys
              /\ loading_inv (ui sys).
Proof.
  destruct (exec start upscale_turned_down) as [sys|] eqn:E.
  - exists sys. split; [reflexivity|].
    apply (proj1 loading_holds_no_result).
    exact (exec_reachable _ _ _ reachable_start E).
  - vm_compute in E. discriminate E.
Defined.

(** ** The upscale announces a PNG *)

Lemma split_png_data_url (bytes : Js.str) :
  Js.split Js.comma (png_data_url bytes)
  = Js.lit "data:image/png;base64" :: Js.split Js.comma bytes.
Proof.
  change (png_data_url bytes)
    with (Js.lit "data:image/png;base64" ++ Js.comma :: bytes).
  apply split_at_first. reflexivity.
Qed.

Lemma decode_png_data_url (bytes : Js.str) (img : EncodedImage) :
  decode (png_data_url bytes) = Some img -> mimeType img = image_png.
Proof.
  unfold decode. rewrite split_png_data_url.
  destruct (Js.split Js.comma bytes) as [|d rest] eqn:E.
  - exfalso. exact (split_not_nil _ _ E).
  - cbn [nth_error]. destruct (Js.is_empty _ || Js.is_empty d);
      [discriminate|].
    intros H. injection H as <-. reflexivity.
Qed.

Lemma handlers_keep_png_inv (a : Action) (s : State) :
  png_inv s ->
  stretch (keeps png_inv) (handler a s) s s /\ only png_call (handler a s).
Proof.
  intros Hs. destruct a as [[f|]| | | |v|c|c|img]; cbn [handler].
  - stretches. kept png_inv.
  - stretches. kept png_inv.
  - stretches. kept png_inv.
  - unfold handleEdit, imageToEdit.
    destruct (originalImage s) as [original|].
    + destruct (Js.is_empty (prompt s)).
      * stretches. kept png_inv.
      * destruct (completedCrop s) as [c|]; [destruct (imgRef s) as [img|]|];
          [destruct ((0 <? Crop.width c)%float && (0 <? Crop.height c)%float)
          | |];
          unfold getCroppedImg; stretches;
          try (intros _; unfold png_inv; cbn; eexists; reflexivity);
          kept png_inv.
    + stretches. kept png_inv.
  - unfold handleUpscale.
    destruct (present (editedImage s)) as [edited|] eqn:Ep.
    + assert (Hpng : exists bytes, edited = png_data_url bytes).
      { unfold png_inv in Hs. destruct (editedImage s) as [[|c0 u]|];
          try discriminate. injection Ep as <-. exact Hs. }
      destruct Hpng as [bytes ->].
      destruct (decode (png_data_url bytes)) as [img|] eqn:Ed.
      * pose proof (decode_png_data_url _ _ Ed) as Hm.
        stretches; try exact Hm; kept png_inv.
      * stretches; kept png_inv.
    + stretches. kept png_inv.
  - stretches. kept png_inv.
  - stretches. kept png_inv.
  - stretches. kept png_inv.
  - stretches. kept png_inv.
Qed.

(** C10.  In every state the component can reach, an edit result that is
    there is a data URI whose header is [data:image/png;base64]; every
    [upscaleImage] call made so far was given the MIME type ['image/png'],
    and so is the one [handleUpscale] makes if invoked now, whatever the
    type of the file that was uploaded. *)
Theorem upscale_sends_png (sys : Sys) :
  reachable sys ->
  (forall uri, editedImage (ui sys) = Some uri ->
     header_of uri = Some (Js.lit "data:image/png;base64"))
  /\ (forall data mime,
        In (RemoteEvent (UpscaleImage data mime)) (log sys) ->
        mime = image_png)
  /\ (forall b data mime,
        In (RemoteEvent (UpscaleImage data mime))
           (calls b (handleUpscale (ui sys)) (ui sys)) ->
        mime = image_png).
Proof.
  intros Hr.
  destruct (reachable_ok png_inv png_call I handlers_keep_png_inv sys Hr)
    as (Hi & _ & Hl).
  split; [|split].
  - intros uri Hu. unfold png_inv in Hi. rewrite Hu in Hi.
    destruct Hi as [bytes ->]. unfold header_of.
    rewrite split_png_data_url. reflexivity.
  - intros data mime Hin.
    exact (proj1 (Forall_forall _ _) Hl _ Hin).
  - intros b data mime Hin.
    destruct (handlers_keep_png_inv Upscale (ui sys) Hi) as [Hs Ho].
    destruct (run_sound (keeps png_inv) png_call b _ _ _ Hs Ho)
      as (_ & Hc & _).
    exact (proj1 (Forall_forall _ _) Hc _ Hin).
Qed.

Lemma upscale_sends_png_witness :
  exists sys,
    exec start upscale_in_flight = Some sys
    /\ In (RemoteEvent (UpscaleImage (Js.lit "BBBB") image_png)) (log sys)
    /\ forall data mime,
         In (RemoteEvent (UpscaleImage data mime)) (log sys) ->
         mime = image_png.
Proof.
  destruct (exec start upscale_in_flight) as [sys|] eqn:E.
  - exists sys. split; [reflexivity|]. split.
    + vm_compute in E. injection E as <-. simpl. tauto.
    + apply (upscale_sends_png sys).
      exact (exec_reachable _ _ _ reachable_start E).
  - vm_compute in E. discriminate E.
Defined.

(** * Further properties of the component *)

(** ** What [decode] gives back *)

Lemma split_inv (sep : Js.char) (s : Js.str) :
  forall h rest,
    Js.split sep s = h :: rest ->
    forallb (fun c => negb (c =? sep)%N) h = true
    /\ ((rest = [] /\ s = h)
        \/ exists r, s = h ++ sep :: r /\ Js.split sep r = rest).
Proof.
  induction s as [|c s IH]; simpl; intros h rest H.
  - injection H as <- <-. split; [reflexivity|]. left. split; reflexivity.
  - destruct (c =? sep)%N eqn:Hc.
    + injection H as <- <-. apply N.eqb_eq in Hc. subst c.
      split; [reflexivity|]. right. exists s. split; reflexivity.
    + destruct (Js.split sep s) as [|h' t'] eqn:Hs.
      * exfalso. exact (split_not_nil _ _ Hs).
      * injection H as <- <-. destruct (IH h' t' eq_refl) as [Hf Hshape].
        split; [simpl; rewrite Hc, Hf; reflexivity|].
        destruct Hshape as [[-> ->]|(r & -> & Hr)].
        -- left. split; reflexivity.
        -- right. exists r. split; [reflexivity|exact Hr].
Qed.

(** X1.  Whatever [decode] accepts has the shape header, comma, payload,
    and then nothing or a further comma: the header and the payload it
    returns are not empty and hold no comma, and the payload is the text
    between the first comma and the second. *)
Theorem decode_shape (uri : Js.str) (img : EncodedImage) :
  decode uri = Some img ->
  exists header tail,
    uri = header ++ Js.comma :: base64 img
            ++ match tail with Some t => Js.comma :: t | None => [] end
    /\ header <> [] /\ no_comma header = true
    /\ base64 img <> [] /\ no_comma (base64 img) = true.
Proof.
  unfold decode.
  destruct (Js.split Js.comma uri) as [|h rest] eqn:Hs; [discriminate|].
  destruct (split_inv _ _ _ _ Hs) as [Hh Hshape].
  destruct rest as [|d rest']; cbn [nth_error]; [discriminate|].
  destruct Hshape as [[Hnil _]|(r & -> & Hr)]; [discriminate|].
  destruct (split_inv _ _ _ _ Hr) as [Hd Hshape].
  destruct h as [|c h]; [discriminate|].
  destruct d as [|c' d]; [discriminate|].
  cbn [Js.is_empty orb]. intros H. injection H as <-. cbn [base64].
  destruct Hshape as [[-> ->]|(r' & -> & _)].
  - exists (c :: h), None. rewrite app_nil_r.
    repeat split; try discriminate; assumption.
  - exists (c :: h), (Some r').
    repeat split; try discriminate; assumption.
Qed.

Lemma decode_shape_witness :
  exists header tail,
    Js.lit "data:image/jpeg;base64,QUJD"
    = header ++ Js.comma :: Js.lit "QUJD"
        ++ match tail with Some t => Js.comma :: t | None => [] end
    /\ header <> [] /\ no_comma header = true
    /\ Js.lit "QUJD" <> [] /\ no_comma (Js.lit "QUJD") = true.
Proof.
  exact (decode_shape (Js.lit "data:image/jpeg;base64,QUJD")
           {| base64 := Js.lit "QUJD"; mimeType := Js.lit "image/jpeg" |}
           eq_refl).
Defined.

Lemma lazy_until_semicolon_clean (s t : Js.str) :
  Js.lazy_until_semicolon s = Some t ->
  forallb (fun c => negb ((c =? Js.semicolon)%N || Js.is_line_terminator c))
          t = true.
Proof.
  revert t. induction s as [|c s IH]; simpl; intros t H; [discriminate|].
  destruct (c =? Js.semicolon)%N eqn:Hc; [injection H as <-; reflexivity|].
  destruct (Js.is_line_terminator c) eqn:Hl; [discriminate|].
  destruct (Js.lazy_until_semicolon s) as [t'|]; [|discriminate].
  injection H as <-. simpl. rewrite Hc, Hl, (IH t' eq_refl). reflexivity.
Qed.

Lemma match_type_clean (h t : Js.str) :
  Js.match_type h = Some t ->
  forallb (fun c => negb ((c =? Js.semicolon)%N || Js.is_line_terminator c))
          t = true.
Proof.
  induction h as [|c h IH]; simpl; intros H; [discriminate|].
  destruct (c =? Js.colon)%N; [|exact (IH H)].
  destruct (Js.lazy_until_semicolon h) as [t'|] eqn:Hl; [|exact (IH H)].
  injection H as <-. exact (lazy_until_semicolon_clean _ _ Hl).
Qed.

(** X2.  The MIME type [decode] returns never holds a semicolon or a line
    terminator: a parameter such as [;charset=utf-8] is always dropped,
    and so is whatever follows a line break. *)
Theorem decode_type_clean (uri : Js.str) (img : EncodedImage) :
  decode uri = Some img ->
  forallb (fun c => negb ((c =? Js.semicolon)%N || Js.is_line_terminator c))
          (mimeType img) = true.
Proof.
  unfold decode.
  destruct (nth_error (Js.split Js.comma uri) 0) as [h|]; [|discriminate].
  destruct (nth_error (Js.split Js.comma uri) 1) as [d|]; [|discriminate].
  destruct (Js.is_empty h || Js.is_empty d); [discriminate|].
  intros H. injection H as <-. cbn [mimeType].
  destruct (Js.match_type h) as [t|] eqn:Ht; [|reflexivity].
  exact (match_type_clean _ _ Ht).
Qed.

Lemma decode_type_clean_witness :
  forallb (fun c => negb ((c =? Js.semicolon)%N || Js.is_line_terminator c))
          (Js.lit "text/plain") = true.
Proof.
  exact (decode_type_clean
           (Js.lit "data:text/plain;charset=utf-8;base64,QUJD")
           {| base64 := Js.lit "QUJD"; mimeType := Js.lit "text/plain" |}
           eq_refl).
Defined.

(** ** What the rasterizer returns *)

Lemma decode_png_data_url_ok (bytes : Js.str) :
  bytes <> [] -> no_comma bytes = true ->
  decode (png_data_url bytes)
  = Some {| base64 := bytes; mimeType := image_png |}.
Proof.
  intros Hne Hb.
  pose proof (decode_parts (Js.lit "data:image/png;base64") bytes None
                eq_refl Hb) as Hd.
  cbn [app] in Hd. rewrite app_nil_r in Hd.
  change (png_data_url bytes)
    with (Js.lit "data:image/png;base64" ++ Js.comma :: bytes).
  rewrite Hd. destruct bytes; [congruence|]. reflexivity.
Qed.



(** ** Messages *)

Lemma message_or_not_empty (e : JsError) (fallback : Js.str) :
  fallback <> [] -> message_or e fallback <> [].
Proof.
  intros H. unfold message_or.
  destruct (message e) as [[|c m]|]; (exact H || discriminate).
Qed.

Lemma msg_upload_first_ne : msg_upload_first <> [].
Proof. vm_compute. discriminate. Qed.
Lemma msg_enter_prompt_ne : msg_enter_prompt <> [].
Proof. vm_compute. discriminate. Qed.
Lemma msg_unexpected_ne : msg_unexpected <> [].
Proof. vm_compute. discriminate. Qed.
Lemma msg_nothing_to_upscale_ne : msg_nothing_to_upscale <> [].
Proof. vm_compute. discriminate. Qed.
Lemma msg_invalid_format_ne : msg_invalid_format <> [].
Proof. vm_compute. discriminate. Qed.
Lemma msg_unexpected_upscale_ne : msg_unexpected_upscale <> [].
Proof. vm_compute. discriminate. Qed.

(** ** How an edit goes on *)

(** X4.  When the crop is used and the rasterizer fails, for want of a 2-D
    context or of a data URL that decodes, [handleEdit] stops at a tick
    and then, whatever the state by then, stores the rasterizer's message
    in [error], lowers [isLoading], touches nothing else, makes no call,
    [editImage] included, and is over. *)
Theorem edit_rasterizer_failure (b : Browser) (s : State) :
  originalImage s <> None -> prompt s <> [] -> crop_usable s = true ->
  context2d b = false \/ decode (dataURL b) = None ->
  exists k,
    outcome b (handleEdit s) s = Paused (Ready k)
    /\ forall b' s1,
         after b' k s1
         = apply_setter (SetIsLoading false)
             (apply_setter
                (SetError
                   (Some (if context2d b
                          then Js.lit "Could not convert canvas to base64."
                          else Js.lit "No 2d context"))) s1)
         /\ calls b' k s1 = []
         /\ outcome b' k s1 = Returned tt.
Proof.
  intros Ho Hp Hc Hfail. unfold outcome, after, calls, handleEdit, imageToEdit.
  unfold crop_usable in Hc.
  destruct (originalImage s) as [original|]; [|congruence].
  rewrite (not_empty_prompt _ Hp).
  destruct (completedCrop s) as [c|]; [|discriminate].
  destruct (imgRef s) as [img|]; [|discriminate].
  rewrite Hc. unfold getCroppedImg. cbn.
  destruct (context2d b); cbn.
  - destruct Hfail as [Hf|Hf]; [discriminate|]. rewrite Hf.
    eexists. split; [reflexivity|]. intros b' s1. repeat split.
  - eexists. split; [reflexivity|]. intros b' s1. repeat split.
Qed.

Lemma edit_rasterizer_failure_witness :
  exists k,
    outcome {| objectURL := fun _ => []; context2d := false; dataURL := [] |}
            (handleEdit sample_cropped) sample_cropped = Paused (Ready k)
    /\ error (after sample_browser k (edit_entered sample_cropped))
       = Some (Js.lit "No 2d context").
Proof.
  destruct (edit_rasterizer_failure
              {| objectURL := fun _ => []; context2d := false; dataURL := [] |}
              sample_cropped ltac:(discriminate) ltac:(discriminate)
              eq_refl (or_introl eq_refl)) as (k & Hk & H).
  exists k. split; [exact Hk|].
  rewrite (proj1 (H sample_browser (edit_entered sample_cropped))).
  reflexivity.
Defined.





(** ** How an upscale goes on *)

Lemma present_png_data_url (bytes : Js.str) :
  present (Some (png_data_url bytes)) = Some (png_data_url bytes).
Proof. vm_compute. reflexivity. Qed.

Lemma png_data_url_parts (bytes : Js.str) :
  png_data_url bytes = Js.lit "data:image/png;base64" ++ Js.comma :: bytes.
Proof. vm_compute. reflexivity. Qed.

(** X7.  [handleUpscale] on an edit result [data:image/png;base64,<bytes>]:
    when [bytes] is empty or starts with a comma, it fails on the spot
    with the invalid-format message, not loading and with no call made;
    otherwise it is loading and waits for [upscaleImage] on the part of
    [bytes] before its first comma, as ['image/png'].  That is the single
    call of the whole run: whatever the answer and the state by then, what
    follows it makes no call and does not suspend again. *)
Theorem upscale_of_result (b : Browser) (s : State) (bytes : Js.str) :
  editedImage s = Some (png_data_url bytes) ->
  (bytes = [] \/ (exists r, bytes = Js.comma :: r) ->
     after b (handleUpscale s) s
     = apply_setter (SetIsUpscaling false)
         (apply_setter (SetUpscaleError (Some msg_invalid_format))
            (upscale_entered s))
     /\ calls b (handleUpscale s) s = []
     /\ outcome b (handleUpscale s) s = Returned tt)
  /\ (forall (data : Js.str) (tail : option Js.str),
        data <> [] -> no_comma data = true ->
        bytes = data
                  ++ match tail with Some t => Js.comma :: t | None => [] end ->
        after b (handleUpscale s) s = upscale_entered s
        /\ calls b (handleUpscale s) s
           = [RemoteEvent (UpscaleImage data image_png)]
        /\ exists k,
             outcome b (handleUpscale s) s
             = Paused (Waiting (UpscaleImage data image_png) k)
             /\ forall r b' s1,
                  calls b' (k r) s1 = []
                  /\ forall q, outcome b' (k r) s1 <> Paused q).
Proof.
  intros He. unfold after, calls, outcome, handleUpscale.
  rewrite He, present_png_data_url. split.
  - intros Hbad.
    assert (Hd : decode (png_data_url bytes) = None).
    { unfold decode. rewrite split_png_data_url.
      destruct Hbad as [->|[r ->]]; [vm_compute; reflexivity|].
      cbn [Js.split]. rewrite N.eqb_refl. reflexivity. }
    rewrite Hd. split; [|split]; vm_compute; reflexivity.
  - intros data tail Hne Hc ->.
    assert (Hd : decode (png_data_url
                           (data ++ match tail with
                                    | Some t => Js.comma :: t
                                    | None => []
                                    end))
                 = Some {| base64 := data; mimeType := image_png |}).
    { rewrite png_data_url_parts.
      rewrite (decode_parts (Js.lit "data:image/png;base64") data tail
                 eq_refl Hc).
      destruct data; [congruence|]. reflexivity. }
    rewrite Hd. split; [vm_compute; reflexivity|].
    split; [vm_compute; reflexivity|].
    cbn -[msg_unexpected_upscale message_or png_data_url image_png].
    eexists. split; [reflexivity|].
    intros [x|e] b' s1; cbn -[msg_unexpected_upscale message_or png_data_url];
      (split; [reflexivity|discriminate]).
Qed.

Lemma upscale_of_result_witness :
  calls sample_browser (handleUpscale sample_edited) sample_edited
  = [RemoteEvent (UpscaleImage (Js.lit "BBBB") image_png)].
Proof.
  destruct (upscale_of_result sample_browser sample_edited (Js.lit "BBBB")
              eq_refl) as [_ H].
  exact (proj1 (proj2 (H (Js.lit "BBBB") None ltac:(discriminate)
                         eq_refl eq_refl))).
Defined.

(** ** Errors are never empty *)

Ltac msg_ne :=
  unfold not;
  lazymatch goal with
  | |- msg_upload_first = [] -> False => exact msg_upload_first_ne
  | |- msg_enter_prompt = [] -> False => exact msg_enter_prompt_ne
  | |- msg_unexpected = [] -> False => exact msg_unexpected_ne
  | |- msg_nothing_to_upscale = [] -> False =>
    exact msg_nothing_to_upscale_ne
  | |- msg_invalid_format = [] -> False => exact msg_invalid_format_ne
  | |- msg_unexpected_upscale = [] -> False =>
    exact msg_unexpected_upscale_ne
  | |- message_or _ _ = [] -> False => apply message_or_not_empty; msg_ne
  | |- _ :: _ = [] -> False => discriminate
  end.

Ltac shown_cell :=
  lazymatch goal with
  | |- None <> Some _ => discriminate
  | |- Some _ <> Some [] =>
    let Hx := fresh in
    intros Hx; injection Hx as Hx; revert Hx; msg_ne
  | |- _ => assumption
  end.

Ltac shown :=
  unfold keeps, errors_shown;
  cbn [apply_setter prompt originalImage editedImage isLoading error
       upscaledImage isUpscaling upscaleError imgRef crop completedCrop];
  let H1 := fresh in
  let H2 := fresh in
  intros [H1 H2]; split; shown_cell.

Lemma handlers_keep_errors_shown (a : Action) (s : State) :
  errors_shown s ->
  stretch (keeps errors_shown) (handler a s) s s
  /\ only any_event (handler a s).
Proof.
  intros Hs. destruct a as [[f|]| | | |v|c|c|img]; cbn [handler].
  - stretches. shown.
  - stretches. shown.
  - stretches. shown.
  - unfold handleEdit, imageToEdit.
    destruct (originalImage s) as [original|].
    + destruct (Js.is_empty (prompt s)).
      * stretches. shown.
      * destruct (completedCrop s) as [c|]; [destruct (imgRef s) as [img|]|];
          [destruct ((0 <? Crop.width c)%float && (0 <? Crop.height c)%float)
          | |];
          unfold getCroppedImg; stretches; shown.
    + stretches. shown.
  - unfold handleUpscale.
    destruct (present (editedImage s)) as [edited|]; stretches; shown.
  - stretches. shown.
  - stretches. shown.
  - stretches. shown.
  - stretches. shown.
Qed.

(** X8.  In every state the component can reach, with its handlers
    overlapping in any way and whatever the imported functions answer or
    throw, neither [error] nor [upscaleError] holds the empty string: an
    error that is stored is one that [error && ...] renders. *)
Theorem errors_never_empty (sys : Sys) :
  reachable sys -> error (ui sys) <> Some [] /\ upscaleError (ui sys) <> Some [].
Proof.
  intros Hr.
  refine (proj1 (reachable_ok errors_shown any_event _
                   handlers_keep_errors_shown sys Hr)).
  split; discriminate.
Qed.

Lemma errors_never_empty_witness :
  exists sys, exec start upscale_turned_down = Some sys
              /\ upscaleError (ui sys) <> Some [].
Proof.
  destruct (exec start upscale_turned_down) as [sys|] eqn:E.
  - exists sys. split; [reflexivity|].
    exact (proj2 (errors_never_empty sys
                    (exec_reachable _ _ _ reachable_start E))).
  - vm_compute in E. discriminate E.
Defined.

(** ** Results and downloads *)

Ltac templated :=
  unfold keeps, results_png;
  cbn [apply_setter prompt originalImage editedImage isLoading error
       upscaledImage isUpscaling upscaleError imgRef crop completedCrop];
  let H1 := fresh in
  let H2 := fresh in
  intros [H1 H2]; split;
  first [ assumption | exact I | eexists; reflexivity ].

Lemma handlers_keep_results_png (a : Action) (s : State) :
  results_png s ->
  stretch (keeps results_png) (handler a s) s s
  /\ only any_event (handler a s).
Proof.
  intros Hs. destruct a as [[f|]| | | |v|c|c|img]; cbn [handler].
  - stretches. templated.
  - stretches. templated.
  - stretches. templated.
  - unfold handleEdit, imageToEdit.
    destruct (originalImage s) as [original|].
    + destruct (Js.is_empty (prompt s)).
      * stretches. templated.
      * destruct (completedCrop s) as [c|]; [destruct (imgRef s) as [img|]|];
          [destruct ((0 <? Crop.width c)%float && (0 <? Crop.height c)%float)
          | |];
          unfold getCroppedImg; stretches; templated.
    + stretches. templated.
  - unfold handleUpscale.
    destruct (present (editedImage s)) as [edited|]; stretches; templated.
  - stretches. templated.
  - stretches. templated.
  - stretches. templated.
  - stretches. templated.
Qed.

Lemma present_inv (v : option Js.str) (u : Js.str) :
  present v = Some u -> v = Some u.
Proof.
  destruct v as [[|c r]|]; simpl; intros H; try discriminate.
  injection H as <-. reflexivity.
Qed.

(** X9.  In every state the component can reach, the link either download
    handler clicks points at a data URI whose header is
    [data:image/png;base64]: the [.png] of the file name it offers is
    never at odds with the content. *)
Theorem downloads_are_png (sys : Sys) :
  reachable sys ->
  forall href,
    In (SetHref href)
       (handleDownload (ui sys) ++ handleDownloadUpscaled (ui sys)) ->
    header_of href = Some (Js.lit "data:image/png;base64").
Proof.
  intros Hr href Hin.
  destruct (reachable_ok results_png any_event (conj I I)
              handlers_keep_results_png sys Hr) as ([He Hu] & _).
  assert (Hpng : exists bytes, href = png_data_url bytes).
  { apply in_app_or in Hin. unfold handleDownload, handleDownloadUpscaled in Hin.
    destruct Hin as [Hin|Hin].
    - destruct (present (editedImage (ui sys))) as [u|] eqn:Ep;
        [|destruct Hin].
      apply present_inv in Ep. rewrite Ep in He.
      destruct Hin as [Hin|[Hin|Hin]]; try discriminate.
      + injection Hin as <-. exact He.
      + repeat (destruct Hin as [Hin|Hin]; try discriminate). destruct Hin.
    - destruct (present (upscaledImage (ui sys))) as [u|] eqn:Ep;
        [|destruct Hin].
      apply present_inv in Ep. rewrite Ep in Hu.
      destruct Hin as [Hin|[Hin|Hin]]; try discriminate.
      + injection Hin as <-. exact Hu.
      + repeat (destruct Hin as [Hin|Hin]; try discriminate). destruct Hin. }
  destruct Hpng as [bytes ->]. unfold header_of.
  rewrite split_png_data_url. reflexivity.
Qed.

Lemma downloads_are_png_witness :
  exists sys,
    exec start upscale_in_flight = Some sys
    /\ In (SetHref (png_data_url (Js.lit "BBBB"))) (handleDownload (ui sys))
    /\ forall href,
         In (SetHref href)
            (handleDownload (ui sys) ++ handleDownloadUpscaled (ui sys)) ->
         header_of href = Some (Js.lit "data:image/png;base64").
Proof.
  destruct (exec start upscale_in_flight) as [sys|] eqn:E.
  - exists sys. split; [reflexivity|]. split.
    + vm_compute in E. injection E as <-. vm_compute. right. left. reflexivity.
    + apply (downloads_are_png sys).
      exact (exec_reachable _ _ _ reachable_start E).
  - vm_compute in E. discriminate E.
Defined.

(** ** What the next edit reads *)

(** X10.  After [handleFileChange] with a file, an edit, if the prompt is
    not empty, reads that very file through [fileToBase64] and makes no
    DOM call at all: a crop selected on the picture before is never
    applied to the new one, whatever the state before. *)
Theorem edit_after_file_change (b b' : Browser) (s : State) (f : File) :
  prompt s <> [] ->
  let s' := after b (handleFileChange (Some f)) s in
  calls b' (handleEdit s') s' = [RemoteEvent (FileToBase64 f)]
  /\ only (fun e => ~ is_dom e) (handleEdit s').
Proof.
  intros Hp. cbv zeta. unfold after, calls, handleEdit, imageToEdit. cbn.
  rewrite (not_empty_prompt _ Hp). split; [reflexivity|]. answers.
Qed.

Lemma edit_after_file_change_witness :
  calls sample_browser
        (handleEdit (after sample_browser
                           (handleFileChange (Some sample_file))
                           sample_cropped))
        (after sample_browser (handleFileChange (Some sample_file))
               sample_cropped)
  = [RemoteEvent (FileToBase64 sample_file)].
Proof.
  exact (proj1 (edit_after_file_change sample_browser sample_browser
                  sample_cropped sample_file ltac:(discriminate))).
Defined.

(** X11.  [handleClearCrop] clears [crop] and [completedCrop], leaves the
    nine other cells as they are and makes no call; an edit that passes
    its checks after it reads the whole file of [originalImage] through
    [fileToBase64] and makes no DOM call. *)
Theorem edit_after_clear_crop (b b' : Browser) (s : State)
    (original : SourceImage) :
  originalImage s = Some original -> prompt s <> [] ->
  let s' := after b handleClearCrop s in
  s' = apply_setter (SetCompletedCrop None) (apply_setter (SetCrop None) s)
  /\ calls b handleClearCrop s = []
  /\ calls b' (handleEdit s') s' = [RemoteEvent (FileToBase64 (file original))]
  /\ only (fun e => ~ is_dom e) (handleEdit s').
Proof.
  intros Ho Hp. cbv zeta.
  unfold after, calls, handleEdit, imageToEdit. cbn.
  rewrite Ho, (not_empty_prompt _ Hp).
  split; [reflexivity|]. split; [reflexivity|]. split; [reflexivity|].
  answers.
Qed.

Lemma edit_after_clear_crop_witness :
  calls sample_browser
        (handleEdit (after sample_browser handleClearCrop sample_cropped))
        (after sample_browser handleClearCrop sample_cropped)
  = [RemoteEvent (FileToBase64 sample_file)].
Proof.
  exact (proj1 (proj2 (proj2
           (edit_after_clear_crop sample_browser sample_browser
              sample_cropped
              {| file := sample_file; previewUrl := Js.lit "blob:1" |}
              eq_refl ltac:(discriminate))))).
Defined.

(** ** The name of a download *)

Ltac ranges :=
  repeat rewrite ?orb_true_iff, ?andb_true_iff, ?orb_false_iff,
    ?andb_false_iff, ?negb_true_iff, ?negb_false_iff,
    ?N.leb_le, ?N.leb_gt, ?N.eqb_eq, ?N.eqb_neq in *.

Lemma name_char_sanitized (c : Js.char) :
  is_name_char
    ((fun c => if ((65 <=? c) && (c <=? 90))%N then (c + 32)%N else c)
       (if is_alnum c then c else underscore)) = true.
Proof.
  cbv beta. unfold is_name_char, underscore.
  destruct (is_alnum c) eqn:Ha.
  - unfold is_alnum in Ha.
    destruct ((65 <=? c) && (c <=? 90))%N eqn:Hu; ranges; lia.
  - reflexivity.
Qed.

Lemma name_char_fixed (c : Js.char) :
  is_name_char c = true ->
  (fun c => if ((65 <=? c) && (c <=? 90))%N then (c + 32)%N else c)
    (if is_alnum c then c else underscore) = c.
Proof.
  cbv beta. unfold is_name_char, underscore. intros H.
  destruct (is_alnum c) eqn:Ha.
  - destruct ((65 <=? c) && (c <=? 90))%N eqn:Hu; [|reflexivity].
    exfalso. ranges. lia.
  - unfold is_alnum in Ha. ranges.
    destruct H as [[H|H]|H]; [lia|lia|]. subst c. reflexivity.
Qed.

Lemma sanitize_chars (p : Js.str) :
  forallb is_name_char (toLowerCase (replace_non_alnum p)) = true.
Proof.
  induction p as [|c p IH]; [reflexivity|].
  unfold toLowerCase, replace_non_alnum in *. cbn [List.map forallb].
  rewrite IH, andb_true_r. apply name_char_sanitized.
Qed.

Lemma sanitize_fixed (p : Js.str) :
  forallb is_name_char p = true -> toLowerCase (replace_non_alnum p) = p.
Proof.
  induction p as [|c p IH]; [reflexivity|].
  cbn [forallb]. intros H. apply andb_prop in H as [Hc Hp].
  unfold toLowerCase, replace_non_alnum in *. cbn [List.map].
  rewrite (IH Hp). f_equal. apply (name_char_fixed c Hc).
Qed.

Lemma forallb_firstn {A} (f : A -> bool) (n : nat) :
  forall l, forallb f l = true -> forallb f (firstn n l) = true.
Proof.
  induction n as [|n IH]; intros [|x l]; try reflexivity.
  cbn [firstn forallb]. intros H. apply andb_prop in H as [Hx Hl].
  rewrite Hx, (IH _ Hl). reflexivity.
Qed.

Lemma filename_length (p : Js.str) :
  List.length (filename p) = Nat.min 50 (List.length p).
Proof.
  unfold filename, toLowerCase, replace_non_alnum.
  rewrite !length_map. apply length_firstn.
Qed.

(** X12.  The name derived from a prompt is as long as the prompt, up to
    50 code units, and holds nothing but [a-z], [0-9] and [_], whatever
    the prompt holds. *)
Theorem filename_safe (p : Js.str) :
  List.length (filename p) = Nat.min 50 (List.length p)
  /\ forallb is_name_char (filename p) = true.
Proof.
  split; [apply filename_length|apply sanitize_chars].
Qed.

(** X13.  The fallback ['download'] is used for the empty prompt only.  A
    prompt that is not empty always gives its own sanitized name, and a
    prompt without any ASCII letter or digit, such as one in Persian,
    gives a run of underscores of its length, up to 50. *)
Theorem filename_fallback (p : Js.str) :
  (p = [] -> filename_or_download p = Js.lit "download")
  /\ (p <> [] -> filename_or_download p = filename p /\ filename p <> [])
  /\ (forallb (fun c => negb (is_alnum c)) p = true ->
        filename p = repeat underscore (Nat.min 50 (List.length p))).
Proof.
  split; [|split].
  - intros ->. reflexivity.
  - intros Hp. destruct p as [|c p]; [congruence|].
    unfold filename_or_download, filename, toLowerCase, replace_non_alnum.
    cbn [firstn List.map]. split; [reflexivity|discriminate].
  - unfold filename. generalize 50. revert p.
    induction p as [|c p IH]; intros n H.
    + destruct n; reflexivity.
    + destruct n as [|n]; [reflexivity|].
      cbn [forallb] in H. apply andb_prop in H as [Hc Hp].
      apply negb_true_iff in Hc.
      cbn [firstn List.length Nat.min repeat].
      unfold toLowerCase, replace_non_alnum in *. cbn [List.map].
      rewrite Hc, (IH n Hp). reflexivity.
Qed.

Lemma filename_fallback_witness :
  filename msg_enter_prompt = repeat underscore 31.
Proof.
  exact (proj2 (proj2 (filename_fallback msg_enter_prompt)) eq_refl).
Defined.

(** X14.  A prompt of at most 50 code units, all of them in [a-z], [0-9]
    or [_], is its own name; hence deriving a name from a name changes
    nothing. *)
Theorem filename_idempotent :
  (forall p, forallb is_name_char p = true -> List.length p <= 50 ->
             filename p = p)
  /\ (forall p, filename (filename p) = filename p).
Proof.
  assert (Hfix : forall p, forallb is_name_char p = true ->
                           List.length p <= 50 -> filename p = p).
  { intros p Hc Hl. unfold filename.
    rewrite firstn_all2 by exact Hl. apply sanitize_fixed. exact Hc. }
  split; [exact Hfix|].
  intros p. apply Hfix; [apply sanitize_chars|].
  rewrite filename_length. lia.
Qed.

Lemma filename_idempotent_witness :
  filename (Js.lit "add_a_vintage_filter") = Js.lit "add_a_vintage_filter".
Proof.
  apply (proj1 filename_idempotent); [reflexivity|].
  vm_compute. repeat constructor.
Defined.

Lemma filename_or_download_safe (p : Js.str) :
  forallb is_name_char (filename_or_download p) = true
  /\ 1 <= List.length (filename_or_download p) <= 50.
Proof.
  unfold filename_or_download.
  pose proof (sanitize_chars (firstn 50 p)) as Hc.
  pose proof (filename_length p) as Hl.
  fold (filename p) in Hc.
  destruct (filename p) as [|c r].
  - vm_compute. split; [reflexivity|]. split; repeat constructor.
  - split; [exact Hc|]. rewrite Hl. cbn [List.length] in Hl. lia.
Qed.

(** X15.  A download handler does nothing when its image is missing;
    otherwise the file name it offers is its prefix, then one to fifty
    code units out of [a-z], [0-9] and [_], then [.png]. *)
Theorem download_name (s : State) :
  (present (editedImage s) = None -> handleDownload s = [])
  /\ (present (upscaledImage s) = None -> handleDownloadUpscaled s = [])
  /\ (forall v, In (SetDownload v) (handleDownload s) ->
        exists n, v = Js.lit "gemini-edited-" ++ n ++ Js.lit ".png"
                  /\ forallb is_name_char n = true
                  /\ 1 <= List.length n <= 50)
  /\ (forall v, In (SetDownload v) (handleDownloadUpscaled s) ->
        exists n, v = Js.lit "gemini-upscaled-" ++ n ++ Js.lit ".png"
                  /\ forallb is_name_char n = true
                  /\ 1 <= List.length n <= 50).
Proof.
  unfold handleDownload, handleDownloadUpscaled.
  split; [intros ->; reflexivity|]. split; [intros ->; reflexivity|].
  split; intros v Hin.
  - destruct (present (editedImage s)) as [u|]; [|destruct Hin].
    destruct Hin as [Hin|[Hin|[Hin|Hin]]]; try discriminate.
    + injection Hin as <-. exists (filename_or_download (prompt s)).
      split; [reflexivity|apply filename_or_download_safe].
    + repeat (destruct Hin as [Hin|Hin]; try discriminate). destruct Hin.
  - destruct (present (upscaledImage s)) as [u|]; [|destruct Hin].
    destruct Hin as [Hin|[Hin|[Hin|Hin]]]; try discriminate.
    + injection Hin as <-. exists (filename_or_download (prompt s)).
      split; [reflexivity|apply filename_or_download_safe].
    + repeat (destruct Hin as [Hin|Hin]; try discriminate). destruct Hin.
Qed.

Lemma download_name_witness :
  exists n,
    Js.lit "gemini-edited-" ++ filename_or_download (prompt sample_edited)
      ++ Js.lit ".png"
    = Js.lit "gemini-edited-" ++ n ++ Js.lit ".png"
    /\ forallb is_name_char n = true /\ 1 <= List.length n <= 50.
Proof.
  apply (proj1 (proj2 (proj2 (download_name sample_edited)))).
  right. right. left. reflexivity.
Defined.

(** ** What the markup guarantees *)

Lemma dispatch_eq (b : Browser) (p : Async unit) (sys : Sys) :
  dispatch b p sys
  = {| ui := after b p (ui sys);
       inflight := match outcome b p (ui sys) with
                   | Paused q => inflight sys ++ [q]
                   | _ => inflight sys
                   end;
       log := log sys ++ calls b p (ui sys) |}.
Proof.
  unfold dispatch, after, outcome, calls.
  destruct (run b p (ui sys)) as [[s' ev] o]. reflexivity.
Qed.

Lemma rest_sound (b : Browser) (st : Stage) (p : Async unit) :
  forall s0 s,
    rest_of st p s0 s ->
    match outcome b p s with
    | Paused q => after b p s = s0 /\ stage_of q = st /\ pending_rest q
    | _ => settled st s0 (after b p s)
    end.
Proof.
  unfold after, outcome.
  induction p as [a|e|u k IH|c k IH|k IH|c k IH]; simpl; intros s0 s H.
  - exact H.
  - exact H.
  - exact (IH _ _ H).
  - specialize (IH (answer b c) s0 s (H _)).
    destruct (run b (k (answer b c)) s) as [[s' ev] o]. exact IH.
  - destruct H as (-> & -> & Hk). repeat split. exact Hk.
  - destruct H as (-> & <- & Hk). repeat split. exact Hk.
Qed.

Lemma resume_rest (q : Pending unit) (r : Reply) (k : Async unit) :
  pending_rest q -> resume q r = Some k ->
  forall s1, rest_of (stage_of q) k s1 s1.
Proof.
  destruct q as [k0|c k0]; simpl; intros Hq H.
  - destruct r; try discriminate. injection H as <-. exact Hq.
  - destruct c; destruct r; try discriminate; injection H as <-; apply Hq.
Qed.

Lemma in_flight_app (st : Stage) (l : list (Pending unit)) (q : Pending unit) :
  in_flight st (l ++ [q])
  = in_flight st l + (if same_stage (stage_of q) st then 1 else 0).
Proof.
  unfold in_flight. rewrite filter_app, length_app. simpl.
  destruct (same_stage (stage_of q) st); reflexivity.
Qed.

Lemma in_flight_remove (st : Stage) (n : nat) :
  forall (l : list (Pending unit)) (q : Pending unit),
    nth_error l n = Some q ->
    in_flight st l
    = in_flight st (remove_nth n l)
      + (if same_stage (stage_of q) st then 1 else 0).
Proof.
  unfold in_flight, remove_nth.
  induction n as [|n IH]; intros [|x l] q H; try discriminate.
  - injection H as ->. simpl.
    destruct (same_stage (stage_of q) st); simpl; lia.
  - simpl in H. specialize (IH l q H). simpl.
    destruct (same_stage (stage_of x) st); simpl; rewrite IH; reflexivity.
Qed.

Ltac rests :=
  repeat match goal with
         | |- _ /\ _ => split
         | |- forall _, _ => intro
         | r : Settled _ |- _ => destruct r
         | |- _ = _ => reflexivity
         | |- upscale_frame_of _ _ => unfold upscale_frame_of
         | |- edit_frame _ _ => unfold edit_frame
         | _ => progress cbn -[msg_upload_first msg_enter_prompt
                               msg_unexpected msg_nothing_to_upscale
                               msg_invalid_format msg_unexpected_upscale
                               png_data_url Js.lit]
         end.

Lemma handleEdit_first (b : Browser) (s : State) :
  originalImage s <> None -> prompt s <> [] ->
  exists q,
    outcome b (handleEdit s) s = Paused q
    /\ stage_of q = EditStage /\ pending_rest q.
Proof.
  intros Ho Hp. unfold outcome, handleEdit, imageToEdit.
  destruct (originalImage s) as [original|]; [|congruence].
  rewrite (not_empty_prompt _ Hp).
  destruct (completedCrop s) as [c|]; [destruct (imgRef s) as [img|]|];
    [destruct ((0 <? Crop.width c)%float && (0 <? Crop.height c)%float)
    | |].
  - unfold getCroppedImg. cbn. destruct (context2d b); cbn;
      [destruct (decode (dataURL b))|];
      (eexists; split; [reflexivity|]; split; [reflexivity|]; rests).
  - eexists. split; [reflexivity|]. split; [reflexivity|]. rests.
  - eexists. split; [reflexivity|]. split; [reflexivity|]. rests.
  - eexists. split; [reflexivity|]. split; [reflexivity|]. rests.
Qed.

Lemma handleUpscale_first (b : Browser) (s : State) (edited : Js.str) :
  present (editedImage s) = Some edited ->
  (exists q,
     outcome b (handleUpscale s) s = Paused q
     /\ stage_of q = UpscaleStage /\ pending_rest q
     /\ after b (handleUpscale s) s = upscale_entered s)
  \/ (outcome b (handleUpscale s) s = Returned tt
      /\ after b (handleUpscale s) s
         = apply_setter (SetIsUpscaling false)
             (apply_setter (SetUpscaleError (Some msg_invalid_format))
                (upscale_entered s))).
Proof.
  intros He. unfold outcome, after, handleUpscale. rewrite He.
  destruct (decode edited) as [img|].
  - left. eexists. split; [reflexivity|]. split; [reflexivity|].
    split; [rests|reflexivity].
  - right. split; vm_compute; reflexivity.
Qed.

Lemma same_stage_eq (a b : Stage) : same_stage a b = true <-> a = b.
Proof. destruct a, b; simpl; split; (reflexivity || discriminate). Qed.

Lemma same_stage_refl (a : Stage) : same_stage a a = true.
Proof. destruct a; reflexivity. Qed.

(** A handler that ends at once, leaving both flags as they were. *)
Lemma ui_ok_quiet (b : Browser) (p : Async unit) (sys : Sys) :
  ui_ok sys ->
  (forall q, outcome b p (ui sys) <> Paused q) ->
  no_stale (after b p (ui sys)) ->
  (forall st, loading st (after b p (ui sys)) = loading st (ui sys)) ->
  ui_ok (dispatch b p sys).
Proof.
  intros (Hn & Hc & Hf) Ho Hn' Hl. rewrite dispatch_eq.
  destruct (outcome b p (ui sys)) as [a|e|q]; [| |exfalso; exact (Ho q eq_refl)];
    (split; [exact Hn'|]; split; [|exact Hf];
     intros st; cbn [ui inflight]; rewrite Hl; apply Hc).
Qed.

(** A handler that enters its stage and stops at its first call. *)
Lemma ui_ok_spawn (b : Browser) (p : Async unit) (sys : Sys)
    (q : Pending unit) :
  ui_ok sys ->
  outcome b p (ui sys) = Paused q -> pending_rest q ->
  loading (stage_of q) (ui sys) = false ->
  loading (stage_of q) (after b p (ui sys)) = true ->
  (forall st, st <> stage_of q ->
              loading st (after b p (ui sys)) = loading st (ui sys)) ->
  no_stale (after b p (ui sys)) ->
  ui_ok (dispatch b p sys).
Proof.
  intros (Hn & Hc & Hf) Ho Hq Hoff Hon Hother Hn'. rewrite dispatch_eq, Ho.
  split; [exact Hn'|]. split.
  - intros st. cbn [ui inflight]. rewrite in_flight_app, Hc.
    destruct (same_stage (stage_of q) st) eqn:Es.
    + apply same_stage_eq in Es. subst st. rewrite Hoff, Hon. reflexivity.
    + rewrite Hother.
      * destruct (loading st (ui sys)); reflexivity.
      * intros ->. rewrite same_stage_refl in Es. discriminate.
  - cbn [inflight]. apply Forall_app. split; [exact Hf|].
    constructor; [exact Hq|constructor].
Qed.

(** A run in flight goes on: to its next call, or to its end. *)
Lemma ui_ok_resume (b : Browser) (sys : Sys) (n : nat) (q : Pending unit)
    (k : Async unit) :
  ui_ok sys ->
  nth_error (inflight sys) n = Some q ->
  (forall s1, rest_of (stage_of q) k s1 s1) ->
  ui_ok (dispatch b k {| ui := ui sys;
                         inflight := remove_nth n (inflight sys);
                         log := log sys |}).
Proof.
  intros (Hn & Hc & Hf) Hq Hk. rewrite dispatch_eq. cbn [ui inflight log].
  pose proof (rest_sound b (stage_of q) k _ _ (Hk (ui sys))) as Hs.
  assert (Hcount : forall st,
            in_flight st (inflight sys)
            = in_flight st (remove_nth n (inflight sys))
              + (if same_stage (stage_of q) st then 1 else 0))
    by (intros st; apply in_flight_remove; exact Hq).
  assert (Hrem : Forall pending_rest (remove_nth n (inflight sys)))
    by (apply remove_nth_Forall; exact Hf).
  assert (Hend :
    settled (stage_of q) (ui sys) (after b k (ui sys)) ->
    no_stale (after b k (ui sys))
    /\ (forall st, in_flight st (remove_nth n (inflight sys))
                   = if loading st (after b k (ui sys)) then 1 else 0)).
  { intros Hset. pose proof (Hc EditStage) as He. pose proof (Hc UpscaleStage) as Hu.
    pose proof (Hcount EditStage) as Ce. pose proof (Hcount UpscaleStage) as Cu.
    destruct Hn as [Hn1 Hn2].
    destruct (stage_of q); cbn [settled same_stage] in *.
    - destruct Hset as (Hl & Hi & Her & Him & _).
      split.
      + split; [rewrite Hl; discriminate|].
        rewrite Hi, Her, Him. exact Hn2.
      + intros [|]; cbn [loading] in *.
        * rewrite Hl. destruct (isLoading (ui sys)); lia.
        * rewrite Hi. lia.
    - destruct Hset as (Hl & Hi & Her & Him & _).
      split.
      + split; [|rewrite Hl; discriminate].
        rewrite Hi, Her, Him. exact Hn1.
      + intros [|]; cbn [loading] in *.
        * rewrite Hi. lia.
        * rewrite Hl. destruct (isUpscaling (ui sys)); lia. }
  destruct (outcome b k (ui sys)) as [a|e|q'];
    unfold ui_ok; cbn [ui inflight log].
  - destruct (Hend Hs) as [H1 H2].
    split; [exact H1|]. split; [exact H2|exact Hrem].
  - destruct (Hend Hs) as [H1 H2].
    split; [exact H1|]. split; [exact H2|exact Hrem].
  - destruct Hs as (Ha & Hst & Hq'). rewrite Ha.
    split; [exact Hn|]. split.
    + intros st. rewrite in_flight_app, Hst, <- Hcount. apply Hc.
    + apply Forall_app. split; [exact Hrem|].
      constructor; [exact Hq'|constructor].
Qed.

Ltac cells :=
  cbn [apply_setter edit_entered upscale_entered loading
       prompt originalImage editedImage isLoading error
       upscaledImage isUpscaling upscaleError imgRef crop completedCrop].

Ltac quiet Hok Hn1 Hn2 :=
  apply ui_ok_quiet;
  [ exact Hok
  | intros ?; unfold outcome; cbn; discriminate
  | unfold after, no_stale; cbn;
    first [ exact (conj Hn1 Hn2)
          | split; intros; split; reflexivity ]
  | intros [|]; reflexivity ].

Lemma ui_step_ok (sys sys' : Sys) (l : Label) :
  ui_ok sys -> ui_step sys l = Some sys' -> ui_ok sys'.
Proof.
  intros Hok H. destruct l as [a b|n r b]; simpl in H.
  - destruct (enabled a (ui sys)) eqn:En; [|discriminate]. injection H as <-.
    pose proof Hok as ([Hn1 Hn2] & Hc & Hf).
    destruct a as [[f|]| | | |v|c|c|img]; cbn [handler].
    + quiet Hok Hn1 Hn2.
    + quiet Hok Hn1 Hn2.
    + quiet Hok Hn1 Hn2.
    + cbn [enabled] in En. apply negb_true_iff in En.
      apply orb_false_iff in En as [En Eo].
      apply orb_false_iff in En as [El Ep].
      assert (Ho : originalImage (ui sys) <> None)
        by (destruct (originalImage (ui sys)); [discriminate|discriminate Eo]).
      assert (Hp : prompt (ui sys) <> [])
        by (destruct (prompt (ui sys)); [discriminate Ep|discriminate]).
      destruct (handleEdit_first b (ui sys) Ho Hp) as (q & Hq & Hst & Hr).
      apply (ui_ok_spawn b _ sys q Hok Hq Hr);
        rewrite ?Hst, ?(handleEdit_entry b _ Ho Hp); cells.
      * exact El.
      * reflexivity.
      * intros [|] Hne; [congruence|reflexivity].
      * unfold no_stale. cells. split; intros; split; reflexivity.
    + cbn [enabled] in En. apply andb_prop in En as [En Eu].
      apply andb_prop in En as [Ee El].
      apply negb_true_iff in Eu. apply negb_true_iff in El.
      destruct (present (editedImage (ui sys))) as [edited|] eqn:Ep;
        [|discriminate Ee].
      destruct (handleUpscale_first b (ui sys) edited Ep)
        as [(q & Hq & Hst & Hr & Ha)|[Ho Ha]].
      * apply (ui_ok_spawn b _ sys q Hok Hq Hr); rewrite ?Hst, ?Ha; cells.
        -- exact Eu.
        -- reflexivity.
        -- intros [|] Hne; [reflexivity|congruence].
        -- unfold no_stale. cells.
           split; [exact Hn1|intros; split; reflexivity].
      * apply ui_ok_quiet; [exact Hok| | |].
        -- intros q. rewrite Ho. discriminate.
        -- rewrite Ha. unfold no_stale. cells.
           split; [exact Hn1|discriminate].
        -- rewrite Ha. intros [|]; cells; [reflexivity|].
           symmetry. exact Eu.
    + quiet Hok Hn1 Hn2.
    + quiet Hok Hn1 Hn2.
    + quiet Hok Hn1 Hn2.
    + quiet Hok Hn1 Hn2.
  - destruct (nth_error (inflight sys) n) as [q|] eqn:Eq; [|discriminate].
    destruct (resume q r) as [k|] eqn:Ek; [|discriminate].
    injection H as <-. destruct Hok as (Hn & Hc & Hf).
    assert (Hq : pending_rest q).
    { apply (proj1 (Forall_forall _ _) Hf). exact (nth_error_In _ _ Eq). }
    exact (ui_ok_resume b sys n q k (conj Hn (conj Hc Hf)) Eq
             (resume_rest q r k Hq Ek)).
Qed.

Lemma ui_reachable_ok (sys : Sys) : ui_reachable sys -> ui_ok sys.
Proof.
  induction 1 as [|sys l sys' _ IH Hstep].
  - split; [split; discriminate|]. split; [intros [|]; reflexivity|constructor].
  - exact (ui_step_ok _ _ _ IH Hstep).
Qed.

Lemma ui_exec_reachable (ls : list Label) :
  forall sys sys',
    ui_reachable sys -> ui_exec sys ls = Some sys' -> ui_reachable sys'.
Proof.
  induction ls as [|l ls IH]; simpl; intros sys sys' Hr H.
  - injection H as <-. exact Hr.
  - destruct (ui_step sys l) as [sys1|] eqn:E; [|discriminate].
    exact (IH _ _ (ui_reachable_step l Hr E) H).
Qed.

(** X16.  In every state the component reaches when the user can only act
    through what the markup renders and enables, no stage is loading
    while it holds a result or an error: the checks at the head of
    [handleEdit] and [handleUpscale] never fire while their stage loads,
    because their buttons are then disabled or not rendered. *)
Theorem markup_no_stale (sys : Sys) :
  ui_reachable sys -> no_stale (ui sys).
Proof. intros Hr. exact (proj1 (ui_reachable_ok sys Hr)). Qed.

Lemma markup_no_stale_witness :
  exists sys,
    ui_exec start edit_restarted = Some sys
    /\ isLoading (ui sys) = true /\ isUpscaling (ui sys) = true
    /\ no_stale (ui sys).
Proof.
  destruct (ui_exec start edit_restarted) as [sys|] eqn:E.
  - exists sys.
    pose proof (markup_no_stale sys
                  (ui_exec_reachable _ _ _ ui_reachable_start E)) as H.
    vm_compute in E. injection E as <-.
    split; [reflexivity|]. split; [reflexivity|]. split; [reflexivity|].
    exact H.
  - vm_compute in E. discriminate E.
Defined.

(** X17.  Under the same markup, each stage has at most one run in
    flight, and its loading flag is up exactly while it has one: the
    edit and the upscale are never re-entered before they end. *)
Theorem markup_single_flight (sys : Sys) :
  ui_reachable sys ->
  in_flight EditStage (inflight sys) = (if isLoading (ui sys) then 1 else 0)
  /\ in_flight UpscaleStage (inflight sys)
     = (if isUpscaling (ui sys) then 1 else 0).
Proof.
  intros Hr. destruct (ui_reachable_ok sys Hr) as (_ & Hc & _).
  split; [exact (Hc EditStage)|exact (Hc UpscaleStage)].
Qed.

Lemma markup_single_flight_witness :
  exists sys,
    ui_exec start edit_restarted = Some sys
    /\ in_flight EditStage (inflight sys) = 1
    /\ in_flight UpscaleStage (inflight sys) = 1.
Proof.
  destruct (ui_exec start edit_restarted) as [sys|] eqn:E.
  - exists sys.
    pose proof (markup_single_flight sys
                  (ui_exec_reachable _ _ _ ui_reachable_start E)) as [H1 H2].
    vm_compute in E. injection E as <-.
    split; [reflexivity|]. split; [exact H1|exact H2].
  - vm_compute in E. discriminate E.
Defined.

(** X18.  The markup does not keep an upscale from being overtaken.  For
    any file, prompt and answers: an edit answers [e1], its upscale is
    started, the edit is started again, the upscale answers [u], the edit
    answers [e2].  Every step is enabled, and the component ends idle
    with the new edit result [e2] beside the upscale [u] of the old one
    [e1], the only image [upscaleImage] was ever given. *)
Theorem markup_upscale_overtaken (b : Browser) (f : File)
    (p e1 e2 u : Js.str) (img1 img2 : EncodedImage) :
  p <> [] -> e1 <> [] -> no_comma e1 = true ->
  exists sys,
    ui_exec start (overtaken_upscale b f p e1 e2 u img1 img2) = Some sys
    /\ editedImage (ui sys) = Some (png_data_url e2)
    /\ upscaledImage (ui sys) = Some (png_data_url u)
    /\ error (ui sys) = None /\ upscaleError (ui sys) = None
    /\ isLoading (ui sys) = false /\ isUpscaling (ui sys) = false
    /\ inflight sys = []
    /\ (forall d m, In (RemoteEvent (UpscaleImage d m)) (log sys) -> d = e1).
Proof.
  intros Hp He Hc. destruct p as [|c p]; [congruence|].
  unfold overtaken_upscale.
  cbn -[png_data_url decode present handleUpscale].
  unfold handleUpscale. cbn [editedImage].
  rewrite !present_png_data_url, !(decode_png_data_url_ok e1 He Hc).
  cbn -[png_data_url decode present].
  eexists. split; [reflexivity|]. cbn [ui inflight log editedImage
    upscaledImage error upscaleError isLoading isUpscaling].
  repeat (split; [reflexivity|]).
  intros d m Hin.
  repeat (destruct Hin as [Hin|Hin]; try discriminate).
  - injection Hin as <- _. reflexivity.
  - destruct Hin.
Qed.

Lemma markup_upscale_overtaken_witness :
  exists sys,
    ui_exec start
      (overtaken_upscale sample_browser sample_file (Js.lit "p")
         (Js.lit "OLD") (Js.lit "NEW") (Js.lit "UP")
         {| base64 := Js.lit "AAAA"; mimeType := Js.lit "image/jpeg" |}
         {| base64 := Js.lit "AAAA"; mimeType := Js.lit "image/jpeg" |})
    = Some sys
    /\ editedImage (ui sys) = Some (png_data_url (Js.lit "NEW"))
    /\ upscaledImage (ui sys) = Some (png_data_url (Js.lit "UP")).
Proof.
  destruct (markup_upscale_overtaken sample_browser sample_file (Js.lit "p")
              (Js.lit "OLD") (Js.lit "NEW") (Js.lit "UP")
              {| base64 := Js.lit "AAAA"; mimeType := Js.lit "image/jpeg" |}
              {| base64 := Js.lit "AAAA"; mimeType := Js.lit "image/jpeg" |}
              ltac:(discriminate) ltac:(discriminate) eq_refl)
    as (sys & H1 & H2 & H3 & _).
  exists sys. split; [exact H1|]. split; [exact H2|exact H3].
Defined.

(** * The raster of the rasterizer *)




(** * Loading and what a stage holds *)

(** ** Nothing a loading stage holds is from a previous run *)

Lemma aged_sound (R : State -> Age -> State -> Age -> Prop) (b : Browser)
    {A} (p : Async A) :
  forall s0 a0 s a,
    aged R p s0 a0 s a ->
    R s0 a0 (after b p s) (age_after b p s a)
    /\ match outcome b p s with
       | Paused q => pending_aged R q
       | _ => True
       end.
Proof.
  unfold after, outcome.
  induction p as [x|e|u k IH|c k IH|k IH|c k IH]; simpl; intros s0 a0 s a H.
  - split; [exact H|exact I].
  - split; [exact H|exact I].
  - exact (IH _ _ _ _ H).
  - specialize (IH (answer b c) s0 a0 s a (H _)).
    destruct (run b (k (answer b c)) s) as [[s' ev] o]. exact IH.
  - exact H.
  - exact H.
Qed.

Lemma resume_aged (R : State -> Age -> State -> Age -> Prop)
    (q : Pending unit) (r : Reply) (k : Async unit) :
  pending_aged R q -> resume q r = Some k ->
  forall s1 a1, aged R k s1 a1 s1 a1.
Proof.
  destruct q as [k0|c k0]; simpl; intros Hq H.
  - destruct r; try discriminate. injection H as <-. exact Hq.
  - destruct c; destruct r; try discriminate; injection H as <-; apply Hq.
Qed.

Ltac ages :=
  repeat match goal with
         | |- _ /\ _ => split
         | |- forall _, _ => intro
         | r : Settled _ |- _ => destruct r
         | r : bool |- _ => destruct r
         | |- context [decode ?u] => destruct (decode u)
         | |- stays_young _ _ _ _ =>
           unfold stays_young;
           let H := fresh in intros H; rewrite ?H; reflexivity
         | _ => progress cbn -[msg_upload_first msg_enter_prompt
                               msg_unexpected msg_nothing_to_upscale
                               msg_invalid_format msg_unexpected_upscale
                               png_data_url Js.lit stays_young]
         end.

Lemma handlers_stay_young (act : Action) (s : State) (a : Age) :
  aged stays_young (handler act s) s a s a.
Proof.
  destruct act as [[f|]| | | |v|c|c|img]; cbn [handler].
  - ages.
  - ages.
  - ages.
  - unfold handleEdit, imageToEdit.
    destruct (originalImage s) as [original|].
    + destruct (Js.is_empty (prompt s)).
      * ages.
      * destruct (completedCrop s) as [c|]; [destruct (imgRef s) as [img|]|];
          [destruct ((0 <? Crop.width c)%float && (0 <? Crop.height c)%float)
          | |];
          unfold getCroppedImg; ages.
    + ages.
  - unfold handleUpscale.
    destruct (present (editedImage s)) as [edited|]; ages.
  - ages.
  - ages.
  - ages.
  - ages.
Qed.

Lemma aged_step_young (sys sys' : Sys) (a a' : Age) (l : Label) :
  a = young /\ Forall (pending_aged stays_young) (inflight sys) ->
  aged_step sys a l = Some (sys', a') ->
  a' = young /\ Forall (pending_aged stays_young) (inflight sys').
Proof.
  intros [Ha Hf] H. destruct l as [act b|n r b]; simpl in H.
  - injection H as <- <-.
    destruct (aged_sound stays_young b _ _ _ _ _
                (handlers_stay_young act (ui sys) a)) as [H1 H2].
    split; [exact (H1 Ha)|]. rewrite dispatch_eq. cbn [inflight].
    destruct (outcome b (handler act (ui sys)) (ui sys)) as [x|e|q];
      try exact Hf.
    apply Forall_app. split; [exact Hf|]. constructor; [exact H2|constructor].
  - destruct (nth_error (inflight sys) n) as [q|] eqn:Eq; [|discriminate].
    destruct (resume q r) as [k|] eqn:Ek; [|discriminate].
    injection H as <- <-.
    assert (Hq : pending_aged stays_young q).
    { apply (proj1 (Forall_forall _ _) Hf). exact (nth_error_In _ _ Eq). }
    destruct (aged_sound stays_young b _ _ _ _ _
                (resume_aged _ _ _ _ Hq Ek (ui sys) a)) as [H1 H2].
    split; [exact (H1 Ha)|]. rewrite dispatch_eq. cbn [ui inflight].
    pose proof (remove_nth_Forall _ n _ Hf) as Hrem.
    destruct (outcome b k (ui sys)) as [x|e|q']; try exact Hrem.
    apply Forall_app. split; [exact Hrem|].
    constructor; [exact H2|constructor].
Qed.

Lemma aged_reachable_young (sys : Sys) (a : Age) :
  aged_reachable sys a ->
  a = young /\ Forall (pending_aged stays_young) (inflight sys).
Proof.
  induction 1 as [|sys a l sys' a' _ IH Hstep].
  - split; [reflexivity|constructor].
  - exact (aged_step_young _ _ _ _ _ IH Hstep).
Qed.

Lemma aged_step_step (sys : Sys) (a : Age) (l : Label) :
  aged_step sys a l
  = match step sys l with
    | Some sys' =>
      Some (sys',
            match l with
            | Act act b => age_after b (handler act (ui sys)) (ui sys) a
            | Resume n r b =>
              match nth_error (inflight sys) n with
              | Some p =>
                match resume p r with
                | Some k => age_after b k (ui sys) a
                | None => a
                end
              | None => a
              end
            end)
    | None => None
    end.
Proof.
  destruct l as [act b|n r b]; simpl; [reflexivity|].
  destruct (nth_error (inflight sys) n) as [q|]; [|reflexivity].
  destruct (resume q r); reflexivity.
Qed.

Lemma reachable_has_age (sys : Sys) :
  reachable sys -> exists a, aged_reachable sys a.
Proof.
  induction 1 as [|sys l sys' _ [a IH] Hstep].
  - exists young. constructor.
  - pose proof (aged_step_step sys a l) as E. rewrite Hstep in E.
    eexists. exact (aged_reachable_step l IH E).
Qed.

Lemma aged_exec_reachable (ls : list Label) :
  forall sys a sys' a',
    aged_reachable sys a -> aged_exec sys a ls = Some (sys', a') ->
    aged_reachable sys' a'.
Proof.
  induction ls as [|l ls IH]; simpl; intros sys a sys' a' Hr H.
  - injection H as <- <-. exact Hr.
  - destruct (aged_step sys a l) as [[sys1 a1]|] eqn:E; [|discriminate].
    exact (IH _ _ _ _ (aged_reachable_step l Hr E) H).
Qed.

(** ** With the prompt typed while no edit loads *)

Lemma handlers_keep_confined_inv (a : Action) (s : State) :
  typing_confined a s = true -> confined_inv s ->
  stretch (keeps confined_inv) (handler a s) s s
  /\ only any_event (handler a s).
Proof.
  intros Ha Hs. destruct a as [[f|]| | | |v|c|c|img]; cbn [handler].
  - stretches. kept confined_inv.
  - stretches. kept confined_inv.
  - stretches. kept confined_inv.
  - unfold handleEdit, imageToEdit.
    destruct (originalImage s) as [original|] eqn:Eo.
    + destruct (prompt s) as [|c0 p0] eqn:Ep; cbn [Js.is_empty].
      * stretches. revert Hs. kept confined_inv.
      * destruct (completedCrop s) as [c|]; [destruct (imgRef s) as [img|]|];
          [destruct ((0 <? Crop.width c)%float && (0 <? Crop.height c)%float)
          | |];
          unfold getCroppedImg; stretches; rewrite ?Eo, ?Ep;
          kept confined_inv.
    + stretches. revert Hs. kept confined_inv.
  - unfold handleUpscale.
    destruct (present (editedImage s)) as [edited|];
      stretches; kept confined_inv.
  - cbn [typing_confined] in Ha. apply negb_true_iff in Ha.
    stretches. revert Ha. kept confined_inv.
  - stretches. kept confined_inv.
  - stretches. kept confined_inv.
  - stretches. kept confined_inv.
Qed.

Lemma confined_step_ok (sys sys' : Sys) (l : Label) :
  sys_ok confined_inv any_event sys -> confined_step sys l = Some sys' ->
  sys_ok confined_inv any_event sys'.
Proof.
  intros Hok H. destruct l as [a b|n r b]; simpl in H.
  - destruct (typing_confined a (ui sys)) eqn:Ea; [|discriminate].
    injection H as <-.
    destruct (handlers_keep_confined_inv a (ui sys) Ea (proj1 Hok)).
    apply dispatch_ok; assumption.
  - destruct (nth_error (inflight sys) n) as [q|] eqn:Eq; [|discriminate].
    destruct (resume q r) as [k|] eqn:Ek; [|discriminate].
    injection H as <-. destruct Hok as (Hi & Hf & Hl).
    assert (Hq : pending_ok (keeps confined_inv) any_event q).
    { apply (proj1 (Forall_forall _ _) Hf). exact (nth_error_In _ _ Eq). }
    destruct (resume_sound _ _ _ _ _ Hq Ek) as [Hs Ho].
    apply dispatch_ok; [|apply Hs|exact Ho].
    split; [exact Hi|]. split; [|exact Hl].
    simpl. apply remove_nth_Forall. exact Hf.
Qed.

Lemma confined_reachable_ok (sys : Sys) :
  confined_reachable sys -> sys_ok confined_inv any_event sys.
Proof.
  induction 1 as [|sys l sys' _ IH Hstep].
  - split; [split; discriminate|]. split; constructor.
  - exact (confined_step_ok _ _ _ IH Hstep).
Qed.


